(** * tojvm: a minimal JVM class-file loader and bytecode interpreter

    Shallow embedding of the Go sources (the class-file loader and [vm.go])
    and the properties of the specification checked against them.

    Conventions of the embedding.
    - Go's fixed-width integers are [Z] with the wrap-around written out:
      [wrap w] converts to [uintw], [swrap w] to [intw].  A [uintw] field
      holds a number in [[0, 2^w)].  [int] is 64 bits wide.
    - A Go function returning [(T, error)] returns [result T]: [Ok] is a
      nil error, [Err] a non-nil one.  A run-time panic (index or slice
      bound out of range, failed type assertion, write to a nil map) is the
      outcome [Panic]: it unwinds through every caller, nothing in the
      package recovers.  [Timeout] is the outcome of a model function that
      ran out of fuel and stands for "has not finished yet".
    - The VM, its registry and the objects are shared mutable state: they
      are threaded through the [M] monad.  Objects live in a heap addressed
      by [nat], a [*Object] is an address, pointer identity is equality of
      addresses, and nothing is ever freed.
    - Native methods are host functions outside the package: they are taken
      as functions from the arguments to the result, without access to the
      VM.  No instruction writes into a [[]Value], so a slice value is the
      list of its elements. *)

From Stdlib Require Import ZArith List String Ascii Strings.Byte SpecFloat Lia.
From stdpp Require Import gmap strings list.

Local Open Scope Z_scope.

(* ===================================================================== *)
(** * Machine integers and bytes *)
(* ===================================================================== *)

(** Conversion to an unsigned [w]-bit integer. *)
Definition wrap (w : Z) (x : Z) : Z := x mod 2 ^ w.

(** Conversion to a signed [w]-bit integer (two's complement). *)
Definition swrap (w : Z) (x : Z) : Z := (x + 2 ^ (w - 1)) mod 2 ^ w - 2 ^ (w - 1).

Definition byteZ (b : byte) : Z := Z.of_N (Byte.to_N b).

(** [binary.BigEndian.UintN] on a slice of exactly the right length. *)
Definition BigEndian (bs : list byte) : Z :=
  fold_left (fun acc b => Z.lor (Z.shiftl acc 8) (byteZ b)) bs 0.

(** [binary.BigEndian.Uint16(b)]: reads [b[0]] and [b[1]], and panics on a
    shorter slice; [None] is that panic. *)
Definition Uint16 (b : list byte) : option Z :=
  match b with
  | b0 :: b1 :: _ => Some (Z.lor (byteZ b1) (Z.shiftl (byteZ b0) 8))
  | _ => None
  end.

(** [math.Float32frombits] and [math.Float64frombits], with IEEE 754 values
    as [spec_float] (NaN payloads are not kept). *)
Definition frombits (mw ew : Z) (bits : Z) : spec_float :=
  let s := Z.testbit bits (mw + ew) in
  let e := Z.land (Z.shiftr bits mw) (2 ^ ew - 1) in
  let m := Z.land bits (2 ^ mw - 1) in
  let bias := 2 ^ (ew - 1) - 1 in
  if e =? 0 then
    match m with
    | Zpos p => S754_finite s p (1 - bias - mw)
    | _ => S754_zero s
    end
  else if e =? 2 ^ ew - 1 then
    match m with
    | Z0 => S754_infinity s
    | _ => S754_nan
    end
  else
    match m + 2 ^ mw with
    | Zpos p => S754_finite s p (e - bias - mw)
    | _ => S754_nan
    end.

Definition Float32frombits : Z -> spec_float := frombits 23 8.
Definition Float64frombits : Z -> spec_float := frombits 52 11.

(* ===================================================================== *)
(** * Outcomes of a call *)
(* ===================================================================== *)

(** The [error] values the program creates or receives from [io]. *)
Inductive error : Type :=
| ErrMethodNotFound          (* errors.New("method not found") *)
| ErrClassNotFound           (* errors.New("class not found") *)
| ErrMethodCodeNotFound      (* errors.New("method code not found") *)
| ErrUnsupportedTag (t : Z)  (* fmt.Errorf("unsupported tag: %d", c.Tag) *)
| ErrEOF                     (* io.EOF *)
| ErrUnexpectedEOF.          (* io.ErrUnexpectedEOF *)

(** Go run-time panics: they unwind through every caller of the package. *)
Inductive panic : Type :=
| IndexOutOfRange
| SliceOutOfRange
| TypeAssertion
| NilMapWrite
| NilDereference.

Inductive result (A : Type) : Type :=
| Ok (a : A)
| Err (e : error)
| Panic (p : panic)
| Timeout.

Arguments Ok {A} a.
Arguments Err {A} e.
Arguments Panic {A} p.
Arguments Timeout {A}.

Definition bindR {A B} (m : result A) (k : A -> result B) : result B :=
  match m with
  | Ok a => k a
  | Err e => Err e
  | Panic p => Panic p
  | Timeout => Timeout
  end.

Declare Scope R_scope.
Delimit Scope R_scope with R.
Notation "x <- m ;; k" := (bindR m (fun x => k))
  (at level 100, m at next level, right associativity) : R_scope.

(* ===================================================================== *)
(** * The class file model (loader source file) *)
(* ===================================================================== *)

Record Attribute : Type := mkAttribute {
  Attribute_Name : string;
  Attribute_Data : list byte
}.

Record Field : Type := mkField {
  Field_Flags : Z;
  Field_Name : string;
  Field_Descriptor : string;
  Field_Attributes : list Attribute
}.

(* From Table 4.4-A *)
Definition TagClass : Z := 7.
Definition TagFieldRef : Z := 9.
Definition TagMethodRef : Z := 10.
Definition TagInterfaceMethodRef : Z := 11.
Definition TagString : Z := 8.
Definition TagInteger : Z := 3.
Definition TagFloat : Z := 4.
Definition TagLong : Z := 5.
Definition TagDouble : Z := 6.
Definition TagNameAndType : Z := 12.
Definition TagUTF8 : Z := 1.
Definition TagMethodHandle : Z := 15.
Definition TagMethodType : Z := 16.
Definition TagInvokeDynamic : Z := 18.

Record Const : Type := mkConst {
  Tag : Z;
  NameIndex : Z;
  ClassIndex : Z;
  NameAndTypeIndex : Z;
  StringIndex : Z;
  DescIndex : Z;
  Integer : Z;
  Long : Z;
  Float : spec_float;
  Double : spec_float;
  String_ : string
}.

(** The zero value [Const{Tag: t}]. *)
Definition Const0 (t : Z) : Const :=
  mkConst t 0 0 0 0 0 0 0 (S754_zero false) (S754_zero false) "".

Definition ConstPool : Type := list Const.

Record Class : Type := mkClass {
  Class_ConstPool : ConstPool;
  Name : string;
  Super : string;
  Flags : Z;
  Interfaces : list string;
  Class_Fields : list Field;
  Methods : list Field;
  Attributes : list Attribute
}.

(** [cp[i]] for a [uint16] index [i]. *)
Definition cp_at (cp : ConstPool) (i : Z) : result Const :=
  match cp !! Z.to_nat i with
  | Some c => Ok c
  | None => Panic IndexOutOfRange
  end.

(** [ConstPool.Resolve].  The recursion follows indices read from the class
    file and need not end; [fuel] bounds its depth. *)
Fixpoint Resolve (fuel : nat) (cp : ConstPool) (index : Z) : result string :=
  match fuel with
  | O => Timeout
  | S fuel' =>
      (c <- cp_at cp (wrap 16 (index - 1)) ;;
       if Tag c =? TagUTF8 then Ok (String_ c)
       else if Tag c =? TagString then Resolve fuel' cp (StringIndex c)
       else if (Tag c =? TagClass) || (Tag c =? TagNameAndType)
            then Resolve fuel' cp (NameIndex c)
       else Ok ""%string)%R
  end.

(** ** The binary reader *)

(** [loader]: the reader [r] is the input not yet consumed. *)
Record loader : Type := mkLoader {
  r : list byte;
  err : option error
}.

(** [io.ReadFull(r, b)] with [len(b) = n]: fills [b] and consumes [n] bytes,
    or consumes what is left and reports [io.EOF] (nothing read) or
    [io.ErrUnexpectedEOF] (a short read). *)
Definition ReadFull (rd : list byte) (n : nat) : list byte * list byte * option error :=
  if (n <=? length rd)%nat then (take n rd, drop n rd, None)
  else (rd ++ replicate (n - length rd) x00, [],
        Some (match rd with [] => ErrEOF | _ => ErrUnexpectedEOF end)).

(** Loader computations: state passing over the [loader], with the panics
    of [Resolve] as an outcome. *)
Definition L (A : Type) : Type := loader -> result A * loader.

Definition retL {A} (a : A) : L A := fun l => (Ok a, l).

Definition bindL {A B} (m : L A) (k : A -> L B) : L B :=
  fun l =>
    match m l with
    | (Ok a, l') => k a l'
    | (Err e, l') => (Err e, l')
    | (Panic p, l') => (Panic p, l')
    | (Timeout, l') => (Timeout, l')
    end.

Definition liftL {A} (x : result A) : L A := fun l => (x, l).

Declare Scope L_scope.
Delimit Scope L_scope with L.
Notation "x <- m ;; k" := (bindL m (fun x => k))
  (at level 100, m at next level, right associativity) : L_scope.

(** [loader.bytes].  [n] is never negative at the call sites (a constant,
    or a [uint16] or [uint32] converted to a 64-bit [int]). *)
Definition bytes (n : nat) : L (list byte) :=
  fun l =>
    match err l with
    | None =>
        let '(b, rd, e) := ReadFull (r l) n in
        (Ok b, mkLoader rd e)
    | Some _ => (Ok (replicate n x00), l)
    end.

Definition u1 : L Z :=
  (b <- bytes 1 ;; retL (match b with b0 :: _ => byteZ b0 | [] => 0 end))%L.
Definition u2 : L Z := (b <- bytes 2 ;; retL (BigEndian b))%L.
Definition u4 : L Z := (b <- bytes 4 ;; retL (BigEndian b))%L.
Definition u8 : L Z := (b <- bytes 8 ;; retL (BigEndian b))%L.

(** [l.err = e] *)
Definition set_err (e : error) : L unit :=
  fun l => (Ok tt, mkLoader (r l) (Some e)).

(** One constant-pool entry: [c := Const{Tag: tag}] and the [switch c.Tag]
    of [cpinfo].  The fields of [mkConst] are, in order: Tag, NameIndex,
    ClassIndex, NameAndTypeIndex, StringIndex, DescIndex, Integer, Long,
    Float, Double, String. *)
Definition cpentry (tag : Z) : L Const :=
  let f0 := S754_zero false in
  (if tag =? TagClass then
     x <- u2 ;;
     retL (mkConst tag x 0 0 0 0 0 0 f0 f0 "")
   else if (tag =? TagFieldRef) || (tag =? TagMethodRef)
           || (tag =? TagInterfaceMethodRef) then
     x <- u2 ;;
     y <- u2 ;;
     retL (mkConst tag 0 x y 0 0 0 0 f0 f0 "")
   else if tag =? TagString then
     x <- u2 ;;
     retL (mkConst tag 0 0 0 x 0 0 0 f0 f0 "")
   else if tag =? TagInteger then
     x <- u4 ;;
     retL (mkConst tag 0 0 0 0 0 (swrap 32 x) 0 f0 f0 "")
   else if tag =? TagFloat then
     x <- u4 ;;
     retL (mkConst tag 0 0 0 0 0 0 0 (Float32frombits x) f0 "")
   else if tag =? TagLong then
     x <- u8 ;;
     retL (mkConst tag 0 0 0 0 0 0 (swrap 64 x) f0 f0 "")
   else if tag =? TagDouble then
     x <- u8 ;;
     retL (mkConst tag 0 0 0 0 0 0 0 f0 (Float64frombits x) "")
   else if tag =? TagNameAndType then
     x <- u2 ;;
     y <- u2 ;;
     retL (mkConst tag x 0 0 0 y 0 0 f0 f0 "")
   else if tag =? TagUTF8 then
     n <- u2 ;;
     b <- bytes (Z.to_nat n) ;;
     retL (mkConst tag 0 0 0 0 0 0 0 f0 f0 (string_of_list_byte b))
   else
     _ <- set_err (ErrUnsupportedTag tag) ;;
     retL (Const0 tag))%L.

(** The loop of [cpinfo]; [i] is a [uint16] and is incremented twice after
    a 64-bit entry, so it can wrap: the loop is bounded by [fuel]. *)
Fixpoint cpinfo_loop (fuel : nat) (constPoolCount i : Z) (constPool : ConstPool)
  : L ConstPool :=
  if i <? constPoolCount then
    match fuel with
    | O => liftL Timeout
    | S fuel' =>
        (tag <- u1 ;;
         c <- cpentry tag ;;
         let constPool := constPool ++ [c] in
         if (tag =? TagDouble) || (tag =? TagLong) then
           (* For 64-bit types an additional, valid, but unused const should be added *)
           cpinfo_loop fuel' constPoolCount (wrap 16 (wrap 16 (i + 1) + 1))
                       (constPool ++ [Const0 TagInteger])
         else
           cpinfo_loop fuel' constPoolCount (wrap 16 (i + 1)) constPool)%L
    end
  else retL constPool.

Definition cpinfo (fuel : nat) : L ConstPool :=
  (constPoolCount <- u2 ;; cpinfo_loop fuel constPoolCount 1 [])%L.

(** [for i := uint16(0); i < count; i++ { acc = append(acc, body) }]: the
    counter cannot wrap, the body runs [count] times. *)
Fixpoint repeatL {A} (count : nat) (body : L A) (acc : list A) : L (list A) :=
  match count with
  | O => retL acc
  | S count' => (x <- body ;; repeatL count' body (acc ++ [x]))%L
  end.

Definition interfaces (fuel : nat) (cp : ConstPool) : L (list string) :=
  (interfaceCount <- u2 ;;
   repeatL (Z.to_nat interfaceCount)
           (i <- u2 ;; liftL (Resolve fuel cp i)) [])%L.

Definition attrs (fuel : nat) (cp : ConstPool) : L (list Attribute) :=
  (attributesCount <- u2 ;;
   repeatL (Z.to_nat attributesCount)
           (i <- u2 ;;
            name <- liftL (Resolve fuel cp i) ;;
            n <- u4 ;;
            data <- bytes (Z.to_nat n) ;;
            retL (mkAttribute name data)) [])%L.

Definition fields (fuel : nat) (cp : ConstPool) : L (list Field) :=
  (fieldsCount <- u2 ;;
   repeatL (Z.to_nat fieldsCount)
           (flags <- u2 ;;
            i <- u2 ;;
            name <- liftL (Resolve fuel cp i) ;;
            j <- u2 ;;
            desc <- liftL (Resolve fuel cp j) ;;
            a <- attrs fuel cp ;;
            retL (mkField flags name desc a)) [])%L.

(** The body of [Load], as a loader computation. *)
Definition Load_body (fuel : nat) : L Class :=
  (_ <- u8 ;;                               (* magic, minor, major *)
   cp <- cpinfo fuel ;;                     (* const pool info *)
   flags <- u2 ;;                           (* access flags *)
   i <- u2 ;;
   name <- liftL (Resolve fuel cp i) ;;     (* this class *)
   j <- u2 ;;
   super <- liftL (Resolve fuel cp j) ;;    (* super class *)
   ifs <- interfaces fuel cp ;;
   fs <- fields fuel cp ;;                  (* fields *)
   ms <- fields fuel cp ;;                  (* methods *)
   ats <- attrs fuel cp ;;
   retL (mkClass cp name super flags ifs fs ms ats))%L.

(** [Load(r)]: the class, or the latched error of the loader. *)
Definition Load (fuel : nat) (input : list byte) : result Class :=
  match Load_body fuel (mkLoader input None) with
  | (Ok c, l) =>
      match err l with
      | None => Ok c
      | Some e => Err e
      end
  | (Err e, _) => Err e
  | (Panic p, _) => Panic p
  | (Timeout, _) => Timeout
  end.

(* ===================================================================== *)
(** * The interpreter model (vm.go) *)
(* ===================================================================== *)

(** [Value] is [interface{}]: the dynamic types the interpreter and its
    embedders put into it.  A [*Object] is the address of the object. *)
#[warnings="-register-all"]
Inductive Value : Type :=
| VNil                         (* nil *)
| VInt8 (z : Z)                (* int8 *)
| VInt16 (z : Z)               (* int16 *)
| VInt32 (z : Z)               (* int32 *)
| VInt64 (z : Z)               (* int64 *)
| VFloat32 (f : spec_float)    (* float32 *)
| VFloat64 (f : spec_float)    (* float64 *)
| VString (s : string)         (* string *)
| VObject (a : nat)            (* *Object *)
| VSlice (a : list Value).     (* []Value *)

Record Frame : Type := mkFrame {
  Frame_Class : nat;           (* *Object *)
  IP : Z;                      (* uint32 *)
  Code : list byte;
  Locals : list Value;
  Stack : list Value
}.

Definition set_IP (ip : Z) (f : Frame) : Frame :=
  mkFrame (Frame_Class f) ip (Code f) (Locals f) (Stack f).
Definition set_Stack (s : list Value) (f : Frame) : Frame :=
  mkFrame (Frame_Class f) (IP f) (Code f) (Locals f) s.

(** [Frame.push]: the top of the stack is the last element. *)
Definition push (v : Value) (f : Frame) : Frame :=
  set_Stack (Stack f ++ [v]) f.

(** [Frame.pop]: on an empty stack the index is [-1] and Go panics. *)
Definition pop (f : Frame) : result (Value * Frame) :=
  match Stack f !! (length (Stack f) - 1)%nat with
  | Some v => Ok (v, set_Stack (take (length (Stack f) - 1)%nat (Stack f)) f)
  | None => Panic IndexOutOfRange
  end.

Record Object : Type := mkObject {
  Object_Class : Class;                      (* the embedded Class *)
  ClassInstance : option nat;                (* *Object, None is nil *)
  SuperInstance : option nat;                (* *Object, None is nil *)
  Fields : option (gmap string Value)        (* None is the nil map *)
}.

Record VM : Type := mkVM {
  ClassPath : list string;
  Classes : list nat;                               (* []*Object *)
  Native : gmap string (list Value -> Value);
  heap : list Object                                (* every Object allocated so far *)
}.

(** VM computations: the VM and the objects it points to are shared mutable
    state. *)
Definition M (A : Type) : Type := VM -> result A * VM.

Definition retM {A} (a : A) : M A := fun vm => (Ok a, vm).

Definition bindM {A B} (m : M A) (k : A -> M B) : M B :=
  fun vm =>
    match m vm with
    | (Ok a, vm') => k a vm'
    | (Err e, vm') => (Err e, vm')
    | (Panic p, vm') => (Panic p, vm')
    | (Timeout, vm') => (Timeout, vm')
    end.

Definition liftM {A} (x : result A) : M A := fun vm => (x, vm).

Declare Scope M_scope.
Delimit Scope M_scope with M.
Notation "x <- m ;; k" := (bindM m (fun x => k))
  (at level 100, m at next level, right associativity) : M_scope.

(** Dereference of a [*Object]. *)
Definition deref (a : nat) : M Object :=
  fun vm =>
    match heap vm !! a with
    | Some o => (Ok o, vm)
    | None => (Panic NilDereference, vm)
    end.

(** [&Object{...}]: a fresh address. *)
Definition alloc (o : Object) : M nat :=
  fun vm =>
    (Ok (length (heap vm)),
     mkVM (ClassPath vm) (Classes vm) (Native vm) (heap vm ++ [o])).

(** [Object.New] *)
Definition Object_New (o : nat) : M nat :=
  (c <- deref o ;;
   alloc (mkObject (Object_Class c) (Some o) None (Some ∅)))%M.

(** [Object.Const] *)
Definition Object_Const (fuel : nat) (o : nat) (index : Z) : M Value :=
  (c <- deref o ;;
   s <- liftM (Resolve fuel (Class_ConstPool (Object_Class c)) index) ;;
   retM (VString s))%M.

(** [Object.Field]: a missing key, or a nil map, reads as [nil]. *)
Definition Object_Field (o : nat) (name : string) : M Value :=
  (c <- deref o ;;
   retM (match Fields c with
         | Some m => default VNil (m !! name)
         | None => VNil
         end))%M.

(** [Object.SetField]: assignment to an entry of a nil map panics. *)
Definition Object_SetField (o : nat) (name : string) (value : Value) : M unit :=
  fun vm =>
    match heap vm !! o with
    | None => (Panic NilDereference, vm)
    | Some c =>
        match Fields c with
        | None => (Panic NilMapWrite, vm)
        | Some m =>
            let c' := mkObject (Object_Class c) (ClassInstance c) (SuperInstance c)
                               (Some (<[name := value]> m)) in
            (Ok tt, mkVM (ClassPath vm) (Classes vm) (Native vm) (<[o := c']> (heap vm)))
        end
    end.

(** [Object.Method] *)
Definition Method (o : Object) (name desc : string) : result Field :=
  match List.find (fun m => String.eqb (Field_Name m) name
                            && (String.eqb desc "" || String.eqb desc (Field_Descriptor m)))
                  (Methods (Object_Class o)) with
  | Some m => Ok m
  | None => Err ErrMethodNotFound
  end.

Definition Object_Method (o : nat) (name desc : string) : M Field :=
  (c <- deref o ;; liftM (Method c name desc))%M.

(** [New]: the root class is registered, with its native constructor. *)
Definition New (classPath : list string) : VM :=
  mkVM classPath [0%nat]
       (<["java/lang/Object.<init>"%string := fun _ => VNil]> ∅)
       [mkObject (mkClass [] "java/lang/Object" "" 0 [] []
                          [mkField 0 "<init>" "()V" []] [])
                 None None None].

(** [VM.RegisterNative]: the descriptor is not part of the key. *)
Definition RegisterNative (class method desc : string) (f : list Value -> Value) (vm : VM) : VM :=
  mkVM (ClassPath vm) (Classes vm)
       (<[(class ++ "." ++ method)%string := f]> (Native vm)) (heap vm).

(** The loop of [argc], from index [1] on. *)
Fixpoint argc_loop (desc : string) (inClass : bool) (n : Z) : Z :=
  match desc with
  | EmptyString => 0
  | String c rest =>
      if inClass then
        if Ascii.eqb c ";" then argc_loop rest false n
        else argc_loop rest true n
      else if Ascii.eqb c ")" then n
      else if Ascii.eqb c "L" then argc_loop rest true (n + 1)
      else argc_loop rest false (n + 1)
  end.

Definition argc (desc : string) : Z :=
  match desc with
  | EmptyString => 0
  | String _ rest => argc_loop rest false 0
  end.

(** ** Frame access used by [exec] *)

(** What one iteration of the dispatch loop leaves: the frame to continue
    with (the loop then runs [frame.IP++]), or the value of a [return]. *)
Inductive step : Type :=
| Next (frame : Frame)
| Return (v : Value).

(** [frame.Code[i]] for a [uint32] index. *)
Definition code_at (frame : Frame) (i : Z) : result byte :=
  match Code frame !! Z.to_nat i with
  | Some b => Ok b
  | None => Panic IndexOutOfRange
  end.

(** [binary.BigEndian.Uint16(frame.Code[frame.IP+1:])] *)
Definition code_u16 (frame : Frame) : result Z :=
  let low := wrap 32 (IP frame + 1) in
  if Z.of_nat (length (Code frame)) <? low then Panic SliceOutOfRange
  else match Uint16 (drop (Z.to_nat low) (Code frame)) with
       | Some v => Ok v
       | None => Panic IndexOutOfRange
       end.

(** [frame.Locals[i]] *)
Definition local_at (frame : Frame) (i : Z) : result Value :=
  match Locals frame !! Z.to_nat i with
  | Some v => Ok v
  | None => Panic IndexOutOfRange
  end.

(** [s[low:]] and [s[:high]]; [high] never exceeds [len(s)] where it is used. *)
Definition slice_from (s : list Value) (low : Z) : result (list Value) :=
  if (low <? 0) || (Z.of_nat (length s) <? low) then Panic SliceOutOfRange
  else Ok (drop (Z.to_nat low) s).

Definition slice_to (s : list Value) (high : Z) : result (list Value) :=
  if high <? 0 then Panic SliceOutOfRange
  else Ok (take (Z.to_nat high) s).

(** Type assertions [v.(T)]. *)
Definition as_int32 (v : Value) : result Z :=
  match v with VInt32 z => Ok z | _ => Panic TypeAssertion end.
Definition as_int64 (v : Value) : result Z :=
  match v with VInt64 z => Ok z | _ => Panic TypeAssertion end.
Definition as_float32 (v : Value) : result spec_float :=
  match v with VFloat32 f => Ok f | _ => Panic TypeAssertion end.
Definition as_float64 (v : Value) : result spec_float :=
  match v with VFloat64 f => Ok f | _ => Panic TypeAssertion end.
Definition as_Object (v : Value) : result nat :=
  match v with VObject a => Ok a | _ => Panic TypeAssertion end.
Definition as_slice (v : Value) : result (list Value) :=
  match v with VSlice a => Ok a | _ => Panic TypeAssertion end.

(** The shape of the arithmetic handlers: [a] is popped first, then [b],
    and [op a b] is pushed. *)
Definition arith {A} (cast : Value -> result A) (inj : A -> Value)
           (op : A -> A -> A) (frame : Frame) : result step :=
  (p <- pop frame ;;
   a <- cast (fst p) ;;
   q <- pop (snd p) ;;
   b <- cast (fst q) ;;
   Ok (Next (push (inj (op a b)) (snd q))))%R.

(** IEEE 754 constants and formats of [float32] and [float64]. *)
Definition f32 (bits : Z) : Value := VFloat32 (Float32frombits bits).
Definition f64 (bits : Z) : Value := VFloat64 (Float64frombits bits).
Definition f32_op (op : Z -> Z -> spec_float -> spec_float -> spec_float) := op 24 128.
Definition f64_op (op : Z -> Z -> spec_float -> spec_float -> spec_float) := op 53 1024.

(** [a.Name == "Code" && len(a.Data) > 8] *)
Definition is_Code (a : Attribute) : bool :=
  String.eqb (Attribute_Name a) "Code" && (8 <? length (Attribute_Data a))%nat.

(** [for i := 0; i < len(args); i++ { frame.Locals[i] = args[i] }] *)
Fixpoint copy_args (i : nat) (args : list Value) (locals : list Value)
  : result (list Value) :=
  match args with
  | [] => Ok locals
  | a :: rest =>
      if (i <? length locals)%nat then copy_args (S i) rest (<[i := a]> locals)
      else Panic IndexOutOfRange
  end.

(** The frame [callMethod] builds from the [Code] attribute [a]. *)
Definition new_frame (obj : nat) (a : Attribute) (args : list Value) : result Frame :=
  let maxLocals := BigEndian (take 2 (drop 2 (Attribute_Data a))) in
  (locals <- copy_args 0 args (replicate (Z.to_nat maxLocals) VNil) ;;
   Ok (mkFrame obj 0 (drop 8 (Attribute_Data a)) locals []))%R.

(** [for _, c := range vm.Classes { if c.Name == name { return c, nil } }] *)
Fixpoint scan_classes (h : list Object) (cs : list nat) (name : string)
  : result (option nat) :=
  match cs with
  | [] => Ok None
  | c :: cs' =>
      match h !! c with
      | None => Panic NilDereference
      | Some o =>
          if String.eqb (Name (Object_Class o)) name then Ok (Some c)
          else scan_classes h cs' name
      end
  end.

Definition find_class (name : string) : M (option nat) :=
  fun vm => (scan_classes (heap vm) (Classes vm) name, vm).

(** [vm.Classes = append(vm.Classes, classObj)] *)
Definition register (classObj : nat) : M unit :=
  fun vm => (Ok tt, mkVM (ClassPath vm) (Classes vm ++ [classObj]) (Native vm) (heap vm)).

Definition get_ClassPath : M (list string) := fun vm => (Ok (ClassPath vm), vm).
Definition get_Native (key : string) : M (option (list Value -> Value)) :=
  fun vm => (Ok (Native vm !! key), vm).

Section Interpreter.

(** The files of the host: [open_file path file] is the content read from
    [os.Open(filepath.Join(path, file))], [None] when the file cannot be
    opened.  The interpreter only reads files. *)
Variable open_file : string -> string -> option (list byte).

(** The two functions the interpreter re-enters: [vm.Class] and
    [vm.callMethod]. *)
Variable vmClass : string -> M nat.
Variable vmcallMethod : nat -> Field -> list Value -> M Value.

(** [VM.CallMethod] *)
Definition CallMethod_ (obj : nat) (method desc : string) (args : list Value) : M Value :=
  (m <- Object_Method obj method desc ;;
   vmcallMethod obj m args)%M.

(** The prologue of the cases 0xB2 to 0xB8 of [exec]: the class name, the
    member name and the descriptor of the reference the [u2] operand points
    to in the constant pool of the frame's class. *)
Definition member_ref (fuel : nat) (frame : Frame) : M (string * string * string) :=
  (this <- deref (Frame_Class frame) ;;
   let cp := Class_ConstPool (Object_Class this) in
   index <- liftM (code_u16 frame) ;;
   ref <- liftM (cp_at cp (wrap 16 (index - 1))) ;;
   className <- liftM (Resolve fuel cp (ClassIndex ref)) ;;
   nt <- liftM (cp_at cp (wrap 16 (NameAndTypeIndex ref - 1))) ;;
   name <- liftM (Resolve fuel cp (NameIndex nt)) ;;
   desc <- liftM (Resolve fuel cp (DescIndex nt)) ;;
   retM (className, name, desc))%M.

(** The cases 0xB2 to 0xB8 of [exec]: field and method references. *)
Definition exec_ref (fuel : nat) (op : byte) (frame : Frame) : M step :=
  (r <- member_ref fuel frame ;;
   let '(className, name, desc) := r in
   let frame := set_IP (wrap 32 (IP frame + 2)) frame in
   c <- vmClass className ;;
   match op with
   | xb2 => (* GETSTATIC *)
       v <- Object_Field c name ;;
       retM (Next (push v frame))
   | xb3 => (* PUTSTATIC *)
       p <- liftM (pop frame) ;;
       _ <- Object_SetField c name (fst p) ;;
       retM (Next (snd p))
   | xb4 => (* GETFIELD *)
       p <- liftM (pop frame) ;;
       obj <- liftM (as_Object (fst p)) ;;
       v <- Object_Field obj name ;;
       retM (Next (push v (snd p)))
   | xb5 => (* PUTFIELD *)
       p <- liftM (pop frame) ;;
       q <- liftM (pop (snd p)) ;;
       obj <- liftM (as_Object (fst q)) ;;
       _ <- Object_SetField obj name (fst p) ;;
       retM (Next (snd q))
   | xb6 | xb7 => (* INVOKEVIRTUAL, INVOKESPECIAL *)
       let n := argc desc in
       let len := Z.of_nat (length (Stack frame)) in
       args <- liftM (slice_from (Stack frame) (len - n - 1)) ;;
       res <- CallMethod_ c name desc args ;;
       stack <- liftM (slice_to (Stack frame) (len - n)) ;;
       retM (Next (set_Stack stack frame))
   | xb8 => (* INVOKESTATIC *)
       let n := argc desc in
       let len := Z.of_nat (length (Stack frame)) in
       args <- liftM (slice_from (Stack frame) (len - n)) ;;
       res <- CallMethod_ c name desc args ;;
       stack <- liftM (slice_to (Stack frame) (len - n)) ;;
       retM (Next (set_Stack stack frame))
   | _ => retM (Next frame)
   end)%M.

(** The [switch op] of [exec]. *)
Definition dispatch (fuel : nat) (op : byte) (frame : Frame) : M step :=
  match op with
  (* Constants *)
  | x00 => retM (Next frame)                                  (* NOP *)
  | x01 => retM (Next (push VNil frame))                      (* ACONST_NULL *)
  | x02 => retM (Next (push (VInt32 (-1)) frame))             (* ICONST_M1 *)
  | x03 => retM (Next (push (VInt32 0) frame))                (* ICONST_0 *)
  | x04 => retM (Next (push (VInt32 1) frame))                (* ICONST_1 *)
  | x05 => retM (Next (push (VInt32 2) frame))                (* ICONST_2 *)
  | x06 => retM (Next (push (VInt32 3) frame))                (* ICONST_3 *)
  | x07 => retM (Next (push (VInt32 4) frame))                (* ICONST_4 *)
  | x08 => retM (Next (push (VInt32 5) frame))                (* ICONST_5 *)
  | x09 => retM (Next (push (VInt64 5) frame))                (* LCONST_0 *)
  | x0a => retM (Next (push (VInt64 1) frame))                (* LCONST_1 *)
  | x0b => retM (Next (push (f32 0) frame))                   (* FCONST_0 *)
  | x0c => retM (Next (push (f32 0x3f800000) frame))          (* FCONST_1 *)
  | x0d => retM (Next (push (f32 0x40000000) frame))          (* FCONST_2 *)
  | x0e => retM (Next (push (f64 0) frame))                   (* DCONST_0 *)
  | x0f => retM (Next (push (f64 0x3ff0000000000000) frame))  (* DCONST_1 *)
  | x10 => (* BIPUSH *)
      liftM (b <- code_at frame (wrap 32 (IP frame + 1)) ;;
             Ok (Next (set_IP (wrap 32 (IP frame + 1))
                              (push (VInt8 (swrap 8 (byteZ b))) frame))))%R
  | x11 => (* SIPUSH *)
      liftM (v <- code_u16 frame ;;
             Ok (Next (set_IP (wrap 32 (IP frame + 2))
                              (push (VInt16 (swrap 16 v)) frame))))%R
  | x12 | x13 | x14 => (* LDC, LDC_W, LDC2_W *)
      (b <- liftM (code_at frame (wrap 32 (IP frame + 1))) ;;
       v <- Object_Const fuel (Frame_Class frame) (byteZ b) ;;
       retM (Next (set_IP (wrap 32 (IP frame + 1)) (push v frame))))%M
  (* Loads *)
  | x15 | x16 | x17 | x18 | x19 => (* ILOAD, LLOAD, FLOAD, DLOAD, ALOAD *)
      liftM (b <- code_at frame (wrap 32 (IP frame + 1)) ;;
             v <- local_at frame (byteZ b) ;;
             Ok (Next (set_IP (wrap 32 (IP frame + 1)) (push v frame))))%R
  | x1a | x1e | x22 | x26 | x2a => (* ILOAD_0, LLOAD_0, FLOAD_0, DLOAD_0, ALOAD_0 *)
      liftM (v <- local_at frame 0 ;; Ok (Next (push v frame)))%R
  | x1b | x1f | x23 | x27 | x2b => (* ILOAD_1, LLOAD_1, FLOAD_1, DLOAD_1, ALOAD_1 *)
      liftM (v <- local_at frame 1 ;; Ok (Next (push v frame)))%R
  | x1c | x20 | x24 | x28 | x2c => (* ILOAD_2, LLOAD_2, FLOAD_2, DLOAD_2, ALOAD_2 *)
      liftM (v <- local_at frame 2 ;; Ok (Next (push v frame)))%R
  | x1d | x21 | x25 | x29 | x2d => (* ILOAD_3, LLOAD_3, FLOAD_3, DLOAD_3, ALOAD_3 *)
      liftM (v <- local_at frame 3 ;; Ok (Next (push v frame)))%R
  | x2e | x2f | x30 | x31 | x32 | x33 | x34 | x35 =>
      (* IALOAD, LALOAD, FALOAD, DALOAD, AALOAD, BALOAD, CALOAD, SALOAD *)
      liftM (p <- pop frame ;;
             a <- as_slice (fst p) ;;
             q <- pop (snd p) ;;
             i <- as_int32 (fst q) ;;
             match (if i <? 0 then None else a !! Z.to_nat i) with
             | Some v => Ok (Next (push v (snd q)))
             | None => Panic IndexOutOfRange
             end)%R
  (* Stack *)
  | x59 => (* DUP *)
      liftM (p <- pop frame ;;
             Ok (Next (push (fst p) (push (fst p) (snd p)))))%R
  | x5f => (* SWAP *)
      liftM (p <- pop frame ;;
             q <- pop (snd p) ;;
             Ok (Next (push (fst q) (push (fst p) (snd q)))))%R
  (* Math *)
  | x60 => liftM (arith as_int32 VInt32 (fun a b => swrap 32 (a + b)) frame)   (* IADD *)
  | x61 => liftM (arith as_int64 VInt64 (fun a b => swrap 64 (a + b)) frame)   (* LADD *)
  | x62 => liftM (arith as_float32 VFloat32 (f32_op SFadd) frame)              (* FADD *)
  | x63 => liftM (arith as_float64 VFloat64 (f64_op SFadd) frame)              (* DADD *)
  | x64 => liftM (arith as_int32 VInt32 (fun a b => swrap 32 (b - a)) frame)   (* ISUB *)
  | x65 => liftM (arith as_int64 VInt64 (fun a b => swrap 64 (b - a)) frame)   (* LSUB *)
  | x66 => liftM (arith as_float32 VFloat32 (fun a b => f32_op SFsub b a) frame) (* FSUB *)
  | x67 => liftM (arith as_float64 VFloat64 (fun a b => f64_op SFsub b a) frame) (* DSUB *)
  | x68 => liftM (arith as_int32 VInt32 (fun a b => swrap 32 (a * b)) frame)   (* IMUL *)
  | x69 => liftM (arith as_int64 VInt64 (fun a b => swrap 64 (a * b)) frame)   (* LMUL *)
  | x6a => liftM (arith as_float32 VFloat32 (f32_op SFmul) frame)              (* FMUL *)
  | x6b => liftM (arith as_float64 VFloat64 (f64_op SFmul) frame)              (* DMUL *)
  (* Controls *)
  | xa7 => (* GOTO *)
      liftM (branch <- code_u16 frame ;;
             Ok (Next (set_IP (wrap 32 (IP frame - 3 + branch)) frame)))%R
  | xac | xad | xae | xaf | xb0 => (* IRETURN, LRETURN, FRETURN, DRETURN, ARETURN *)
      liftM (p <- pop frame ;; Ok (Return (fst p)))%R
  | xb1 => retM (Return VNil)                                 (* RETURN *)
  (* References *)
  | xb2 | xb3 | xb4 | xb5 | xb6 | xb7 | xb8 => exec_ref fuel op frame
  | xbb => (* NEW *)
      (this <- deref (Frame_Class frame) ;;
       let cp := Class_ConstPool (Object_Class this) in
       index <- liftM (code_u16 frame) ;;
       let frame := set_IP (wrap 32 (IP frame + 2)) frame in
       e <- liftM (cp_at cp (wrap 16 (index - 1))) ;;
       className <- liftM (Resolve fuel cp (NameIndex e)) ;;
       c <- vmClass className ;;
       obj <- Object_New c ;;
       retM (Next (push (VObject obj) frame)))%M
  (* every other case of the switch has an empty body, and the switch has
     no default *)
  | _ => retM (Next frame)
  end.

(** [VM.callMethod], given [vm.exec]. *)
Definition callMethod_ (exec : Frame -> M Value)
           (obj : nat) (m : Field) (args : list Value) : M Value :=
  match List.find is_Code (Field_Attributes m) with
  | Some a =>
      (frame <- liftM (new_frame obj a args) ;;
       exec frame)%M
  | None =>
      (o <- deref obj ;;
       f <- get_Native (Name (Object_Class o) ++ "." ++ Field_Name m)%string ;;
       match f with
       | Some f => retM (f args)
       | None => liftM (Err ErrMethodCodeNotFound)
       end)%M
  end.

(** [VM.Class], once a class file is loaded as [c]: resolve the super
    class, create and register the class object, run [<clinit>]. *)
Definition define_class (c : Class) : M nat :=
  (super <- (if String.eqb (Super c) "" then retM None
             else s <- vmClass (Super c) ;; retM (Some s)) ;;
   classObj <- alloc (mkObject c None super (Some ∅)) ;;
   _ <- register classObj ;;
   match Method (mkObject c None super (Some ∅)) "<clinit>" "()V" with
   | Ok m =>
       _ <- vmcallMethod classObj m [] ;;
       retM classObj
   | _ => retM classObj
   end)%M.

(** The loop of [VM.Class] over the class path, run after the registry scan
    found nothing. *)
Fixpoint load_class (fuel : nat) (name : string) (paths : list string) : M nat :=
  match paths with
  | [] => liftM (Err ErrClassNotFound)
  | path :: rest =>
      match open_file path (name ++ ".class")%string with
      | None => load_class fuel name rest
      | Some input =>
          match Load fuel input with
          | Err _ => load_class fuel name rest
          | Panic p => liftM (Panic p)
          | Timeout => liftM Timeout
          | Ok c => define_class c
          end
      end
  end.

End Interpreter.

(** The [frame.IP++] that ends an iteration of the dispatch loop. *)
Definition advance (frame : Frame) : Frame :=
  set_IP (wrap 32 (IP frame + 1)) frame.

Section Machine.

Variable open_file : string -> string -> option (list byte).

(** [VM.Class] and [VM.exec].  [fuel] bounds the class files loaded in a
    chain and the instructions executed; a registry hit needs none. *)
Fixpoint VM_Class (fuel : nat) (name : string) {struct fuel} : M nat :=
  (found <- find_class name ;;
   match found with
   | Some c => retM c
   | None =>
       match fuel with
       | O => liftM Timeout
       | S fuel' =>
           paths <- get_ClassPath ;;
           load_class open_file (VM_Class fuel') (callMethod_ (exec fuel'))
                      fuel' name paths
       end
   end)%M
with exec (fuel : nat) (frame : Frame) {struct fuel} : M Value :=
  match fuel with
  | O => liftM Timeout
  | S fuel' =>
      (op <- liftM (code_at frame (IP frame)) ;;
       s <- dispatch (VM_Class fuel') (callMethod_ (exec fuel')) fuel' op frame ;;
       match s with
       | Return v => retM v
       | Next frame => exec fuel' (advance frame)
       end)%M
  end.

(** [VM.callMethod] *)
Definition callMethod (fuel : nat) : nat -> Field -> list Value -> M Value :=
  callMethod_ (exec fuel).

(** [VM.CallMethod] *)
Definition CallMethod (fuel : nat) : nat -> string -> string -> list Value -> M Value :=
  CallMethod_ (callMethod fuel).

(** [VM.Call] *)
Definition Call (fuel : nat) (class method : string) (args : list Value) : M Value :=
  (c <- VM_Class fuel class ;;
   m <- Object_Method c method "" ;;
   callMethod fuel c m args)%M.

End Machine.

(* ===================================================================== *)
(** * Vocabulary of the properties *)
(* ===================================================================== *)

(** The opcodes whose [case] in the switch of [exec] has a body.  Every
    other byte either has no [case] at all or a [case] with an empty body. *)
Definition has_handler (op : byte) : bool :=
  match op with
  | x01 | x02 | x03 | x04 | x05 | x06 | x07 | x08 | x09 | x0a | x0b | x0c
  | x0d | x0e | x0f | x10 | x11 | x12 | x13 | x14 | x15 | x16 | x17 | x18
  | x19 | x1a | x1b | x1c | x1d | x1e | x1f | x20 | x21 | x22 | x23 | x24
  | x25 | x26 | x27 | x28 | x29 | x2a | x2b | x2c | x2d | x2e | x2f | x30
  | x31 | x32 | x33 | x34 | x35 | x59 | x5f | x60 | x61 | x62 | x63 | x64
  | x65 | x66 | x67 | x68 | x69 | x6a | x6b | xa7 | xac | xad | xae | xaf
  | xb0 | xb1 | xb2 | xb3 | xb4 | xb5 | xb6 | xb7 | xb8 | xbb => true
  | _ => false
  end.

(** The slots below the arguments that an invoke passes to the callee: the
    receiver, except for INVOKESTATIC (0xB8). *)
Definition receiver_slots (op : byte) : Z :=
  match op with
  | xb8 => 0
  | _ => 1
  end.

(** The range of [int32], and [r] being the two's-complement 32-bit result
    of the exact integer [z]. *)
Definition is_int32 (z : Z) : Prop := - 2 ^ 31 <= z < 2 ^ 31.
Definition wraps_to (z r : Z) : Prop := is_int32 r /\ (r - z) mod 2 ^ 32 = 0.

(** Argument counting as the specification words it: one per character,
    one for a whole [L...;] sequence, none for a [[] prefix, stop at [)]. *)
Fixpoint argc_spec_loop (desc : string) (inClass : bool) (n : Z) : Z :=
  match desc with
  | EmptyString => 0
  | String c rest =>
      if inClass then
        if Ascii.eqb c ";" then argc_spec_loop rest false n
        else argc_spec_loop rest true n
      else if Ascii.eqb c ")" then n
      else if Ascii.eqb c "[" then argc_spec_loop rest false n
      else if Ascii.eqb c "L" then argc_spec_loop rest true (n + 1)
      else argc_spec_loop rest false (n + 1)
  end.

Definition argc_spec (desc : string) : Z :=
  match desc with
  | EmptyString => 0
  | String _ rest => argc_spec_loop rest false 0
  end.


(** A read request on a loader, what it returns, and the zero value of the
    requested size. *)
Inductive read : Type :=
| ReadU1 | ReadU2 | ReadU4 | ReadU8
| ReadBytes (n : nat).

Inductive read_value : Type :=
| Int (z : Z)
| Bytes (b : list byte).

Definition do_read (rq : read) : L read_value :=
  match rq with
  | ReadU1 => (z <- u1 ;; retL (Int z))%L
  | ReadU2 => (z <- u2 ;; retL (Int z))%L
  | ReadU4 => (z <- u4 ;; retL (Int z))%L
  | ReadU8 => (z <- u8 ;; retL (Int z))%L
  | ReadBytes n => (b <- bytes n ;; retL (Bytes b))%L
  end.

Definition zero_value (rq : read) : read_value :=
  match rq with
  | ReadBytes n => Bytes (replicate n x00)
  | _ => Int 0
  end.

(** A sequence of reads on one loader, in order. *)
Fixpoint do_reads (rqs : list read) : L (list read_value) :=
  match rqs with
  | [] => retL []
  | rq :: rest => (v <- do_read rq ;; vs <- do_reads rest ;; retL (v :: vs))%L
  end.

(** The class file [VM.Class] settles on for [name]: the first directory of
    the class path whose file opens and loads without error. *)
Fixpoint class_file (open_file : string -> string -> option (list byte))
         (fuel : nat) (name : string) (paths : list string) : option Class :=
  match paths with
  | [] => None
  | path :: rest =>
      match open_file path (name ++ ".class")%string with
      | None => class_file open_file fuel name rest
      | Some input =>
          match Load fuel input with
          | Ok c => Some c
          | Err _ => class_file open_file fuel name rest
          | _ => None
          end
      end
  end.

(** The registry scan of [VM.Class] finds a class object for [name], or
    ends without finding one. *)
Definition registered (vm : VM) (name : string) : Prop :=
  exists c, scan_classes (heap vm) (Classes vm) name = Ok (Some c).
Definition unregistered (vm : VM) (name : string) : Prop :=
  scan_classes (heap vm) (Classes vm) name = Ok None.

(** The names of the registered class objects, in registry order. *)
Definition registry_names (vm : VM) : list (option string) :=
  map (fun c => option_map (fun o => Name (Object_Class o)) (heap vm !! c)) (Classes vm).

(** [vm'] is [vm] after some execution: the registry has only grown at its
    end, and every object of [vm] is still there with the same [Class]
    (fields may have changed). *)
Definition extends (vm vm' : VM) : Prop :=
  Classes vm `prefix_of` Classes vm' /\
  (forall a o, heap vm !! a = Some o ->
     exists o', heap vm' !! a = Some o' /\ Object_Class o' = Object_Class o).

Definition preserving {A} (m : M A) : Prop :=
  forall vm x vm', m vm = (x, vm') -> extends vm vm'.

(** No file can be opened. *)
Definition no_files (path file : string) : option (list byte) := None.

(** ** Vocabulary of the further properties *)

(** [f'] is the frame [f] up to its instruction pointer and operand stack. *)
Definition frame_kept (f f' : Frame) : Prop :=
  Frame_Class f' = Frame_Class f /\ Code f' = Code f /\ Locals f' = Locals f.

(** Every frame a handler continues with is the frame [f] up to IP and
    stack. *)
Definition keeps_frame (f : Frame) (m : M step) : Prop :=
  forall vm f' vm', m vm = (Ok (Next f'), vm') -> frame_kept f f'.

(** [vm'] has the class path and the natives of [vm], and at least its
    objects. *)
Definition same_config (vm vm' : VM) : Prop :=
  ClassPath vm' = ClassPath vm /\ Native vm' = Native vm /\
  (length (heap vm) <= length (heap vm'))%nat.

(** Every run of [m] relates the VM before and after by [R]. *)
Definition respects (R : VM -> VM -> Prop) {A} (m : M A) : Prop :=
  forall vm x vm', m vm = (x, vm') -> R vm vm'.

(** The method [m] answers a lookup of [name] with descriptor [desc]; an
    empty [desc] asks for any descriptor. *)
Definition answers (name desc : string) (m : Field) : Prop :=
  Field_Name m = name /\ (desc = ""%string \/ desc = Field_Descriptor m).

(** No entry of the class path [paths] yields a class for the file [file]:
    the file cannot be opened, or the loader reports an error. *)
Definition no_class_file (open_file : string -> string -> option (list byte))
           (fuel : nat) (file : string) (paths : list string) : Prop :=
  Forall (fun path =>
            match open_file path file with
            | None => True
            | Some input => exists e, Load fuel input = Err e
            end) paths.

(** IRETURN, LRETURN, FRETURN, DRETURN, ARETURN (0xAC to 0xB0). *)
Definition is_value_return (op : byte) : bool :=
  match op with
  | xac | xad | xae | xaf | xb0 => true
  | _ => false
  end.

(** The character [c] occurs in [s]. *)
Fixpoint occurs (c : ascii) (s : string) : bool :=
  match s with
  | EmptyString => false
  | String c' rest => Ascii.eqb c' c || occurs c rest
  end.

(** The key of the native registry. *)
Definition native_key (class method : string) : string :=
  (class ++ "." ++ method)%string.

(** What a handler leaves is a frame kept up to IP and stack, or a return. *)
Definition step_kept (f : Frame) (s : step) : Prop :=
  match s with
  | Next f' => frame_kept f f'
  | Return _ => True
  end.

Definition keeps_frameR (f : Frame) (x : result step) : Prop :=
  forall s, x = Ok s -> step_kept f s.

(** The latched error [e'] is the error [e] latched before, or a read ran
    out of input. *)
Definition kept_or_eof (e e' : option error) : Prop :=
  e' = e \/ e' = Some ErrEOF \/ e' = Some ErrUnexpectedEOF.

(** The loader computation [m] never returns an error value, and touches
    the latched error only by failing reads. *)
Definition reads_only {A} (m : L A) : Prop :=
  forall l x l', m l = (x, l') ->
    (forall e, x <> Err e) /\ kept_or_eof (err l) (err l').

(** The loader computation [m] never returns an error value. *)
Definition never_Err {A} (m : L A) : Prop :=
  forall l x l', m l = (x, l') -> forall e, x <> Err e.

(* ===================================================================== *)
(** * Class files used in the examples *)
(* ===================================================================== *)

(** Class [A], super [java/lang/Object], constant pool
    #1 Class #2, #2 "A", #3 Class #4, #4 "java/lang/Object", #5 "one",
    #6 "()I", #7 "main", #8 "Code", #9 Methodref #1.#10,
    #10 NameAndType #5:#6, #11 "add", #12 "(II)I";
    - [static int one()]:  ICONST_1; IRETURN
    - [static int main()]: ICONST_5; INVOKESTATIC #9 (A.one); IRETURN
    - [static int add(int, int)]: ILOAD_0; ILOAD_1; IADD; IRETURN *)
Definition A_class : list byte :=
  [xca; xfe; xba; xbe; x00; x00; x00; x34; x00; x0d; x07; x00; x02; x01; x00; x01;
   x41; x07; x00; x04; x01; x00; x10; x6a; x61; x76; x61; x2f; x6c; x61; x6e; x67;
   x2f; x4f; x62; x6a; x65; x63; x74; x01; x00; x03; x6f; x6e; x65; x01; x00; x03;
   x28; x29; x49; x01; x00; x04; x6d; x61; x69; x6e; x01; x00; x04; x43; x6f; x64;
   x65; x0a; x00; x01; x00; x0a; x0c; x00; x05; x00; x06; x01; x00; x03; x61; x64;
   x64; x01; x00; x05; x28; x49; x49; x29; x49; x00; x21; x00; x01; x00; x03; x00;
   x00; x00; x00; x00; x03; x00; x09; x00; x05; x00; x06; x00; x01; x00; x08; x00;
   x00; x00; x0e; x00; x01; x00; x00; x00; x00; x00; x02; x04; xac; x00; x00; x00;
   x00; x00; x09; x00; x07; x00; x06; x00; x01; x00; x08; x00; x00; x00; x11; x00;
   x02; x00; x00; x00; x00; x00; x05; x08; xb8; x00; x09; xac; x00; x00; x00; x00;
   x00; x09; x00; x0b; x00; x0c; x00; x01; x00; x08; x00; x00; x00; x10; x00; x02;
   x00; x02; x00; x00; x00; x04; x1a; x1b; x60; xac; x00; x00; x00; x00; x00; x00].

(** Class [Base], super [java/lang/Object]; its static initializer reads a
    static field of its subclass:
    - [<clinit>]: GETSTATIC Derived.y; PUTSTATIC Base.x; RETURN *)
Definition Base_class : list byte :=
  [xca; xfe; xba; xbe; x00; x00; x00; x34; x00; x11; x07; x00; x02; x01; x00; x04;
   x42; x61; x73; x65; x07; x00; x04; x01; x00; x10; x6a; x61; x76; x61; x2f; x6c;
   x61; x6e; x67; x2f; x4f; x62; x6a; x65; x63; x74; x01; x00; x08; x3c; x63; x6c;
   x69; x6e; x69; x74; x3e; x01; x00; x03; x28; x29; x56; x01; x00; x04; x43; x6f;
   x64; x65; x09; x00; x09; x00; x0b; x07; x00; x0a; x01; x00; x07; x44; x65; x72;
   x69; x76; x65; x64; x0c; x00; x0c; x00; x0d; x01; x00; x01; x79; x01; x00; x01;
   x49; x09; x00; x01; x00; x0f; x0c; x00; x10; x00; x0d; x01; x00; x01; x78; x00;
   x21; x00; x01; x00; x03; x00; x00; x00; x00; x00; x01; x00; x08; x00; x05; x00;
   x06; x00; x01; x00; x07; x00; x00; x00; x13; x00; x01; x00; x00; x00; x00; x00;
   x07; xb2; x00; x08; xb3; x00; x0e; xb1; x00; x00; x00; x00; x00; x00].

(** Class [Derived], super [Base]:
    - [<clinit>]: ICONST_1; PUTSTATIC Derived.y; RETURN *)
Definition Derived_class : list byte :=
  [xca; xfe; xba; xbe; x00; x00; x00; x34; x00; x0c; x07; x00; x02; x01; x00; x07;
   x44; x65; x72; x69; x76; x65; x64; x07; x00; x04; x01; x00; x04; x42; x61; x73;
   x65; x01; x00; x08; x3c; x63; x6c; x69; x6e; x69; x74; x3e; x01; x00; x03; x28;
   x29; x56; x01; x00; x04; x43; x6f; x64; x65; x09; x00; x01; x00; x09; x0c; x00;
   x0a; x00; x0b; x01; x00; x01; x79; x01; x00; x01; x49; x00; x21; x00; x01; x00;
   x03; x00; x00; x00; x00; x00; x01; x00; x08; x00; x05; x00; x06; x00; x01; x00;
   x07; x00; x00; x00; x11; x00; x01; x00; x00; x00; x00; x00; x05; x04; xb3; x00;
   x08; xb1; x00; x00; x00; x00; x00; x00].

(** Class [Bar], super [java/lang/Object], no members. *)
Definition Bar_class : list byte :=
  [xca; xfe; xba; xbe; x00; x00; x00; x34; x00; x05; x07; x00; x02; x01; x00; x03;
   x42; x61; x72; x07; x00; x04; x01; x00; x10; x6a; x61; x76; x61; x2f; x6c; x61;
   x6e; x67; x2f; x4f; x62; x6a; x65; x63; x74; x00; x21; x00; x01; x00; x03; x00;
   x00; x00; x00; x00; x00; x00; x00].

(** A class path with the single directory [cp]; [Bar] is stored in the
    file [Foo.class]. *)
Definition example_files (path file : string) : option (list byte) :=
  if String.eqb path "cp" then
    if String.eqb file "A.class" then Some A_class
    else if String.eqb file "Base.class" then Some Base_class
    else if String.eqb file "Derived.class" then Some Derived_class
    else if String.eqb file "Foo.class" then Some Bar_class
    else None
  else None.

Definition example_vm : VM := New ["cp"%string].

(** Class [Bad], super [java/lang/Object]; its static initializer reads a
    static field of a class [Missing] that has no class file:
    - [<clinit>]: GETSTATIC Missing.x; RETURN *)
Definition Bad_class : list byte :=
  [xca; xfe; xba; xbe; x00; x00; x00; x34; x00; x0e; x07; x00; x02; x01; x00; x03;
   x42; x61; x64; x07; x00; x04; x01; x00; x10; x6a; x61; x76; x61; x2f; x6c; x61;
   x6e; x67; x2f; x4f; x62; x6a; x65; x63; x74; x01; x00; x08; x3c; x63; x6c; x69;
   x6e; x69; x74; x3e; x01; x00; x03; x28; x29; x56; x01; x00; x04; x43; x6f; x64;
   x65; x09; x00; x09; x00; x0b; x07; x00; x0a; x01; x00; x07; x4d; x69; x73; x73;
   x69; x6e; x67; x0c; x00; x0c; x00; x0d; x01; x00; x01; x78; x01; x00; x01; x49;
   x00; x21; x00; x01; x00; x03; x00; x00; x00; x00; x00; x01; x00; x08; x00; x05;
   x00; x06; x00; x01; x00; x07; x00; x00; x00; x10; x00; x01; x00; x00; x00; x00;
   x00; x04; xb2; x00; x08; xb1; x00; x00; x00; x00; x00; x00].

(** Class [Ctor], super [java/lang/Object], with the constructor a compiler
    emits, constant pool #8 Methodref java/lang/Object.<init>:()V:
    - [<init>]: ALOAD_0; INVOKESPECIAL #8; RETURN *)
Definition Ctor_class : list byte :=
  [xca; xfe; xba; xbe; x00; x00; x00; x34; x00; x0a; x07; x00; x02; x01; x00; x04;
   x43; x74; x6f; x72; x07; x00; x04; x01; x00; x10; x6a; x61; x76; x61; x2f; x6c;
   x61; x6e; x67; x2f; x4f; x62; x6a; x65; x63; x74; x01; x00; x06; x3c; x69; x6e;
   x69; x74; x3e; x01; x00; x03; x28; x29; x56; x01; x00; x04; x43; x6f; x64; x65;
   x0a; x00; x03; x00; x09; x0c; x00; x05; x00; x06; x00; x21; x00; x01; x00; x03;
   x00; x00; x00; x00; x00; x01; x00; x01; x00; x05; x00; x06; x00; x01; x00; x07;
   x00; x00; x00; x11; x00; x01; x00; x01; x00; x00; x00; x05; x2a; xb7; x00; x08;
   xb1; x00; x00; x00; x00; x00; x00].

(** The class path [cp] with the files [Bad.class] and [Ctor.class]. *)
Definition more_files (path file : string) : option (list byte) :=
  if String.eqb path "cp" then
    if String.eqb file "Bad.class" then Some Bad_class
    else if String.eqb file "Ctor.class" then Some Ctor_class
    else None
  else None.

(* ===================================================================== *)
(** * Properties *)
(* ===================================================================== *)

(** ** Unfolding lemmas and the stack *)

Lemma exec_S open_file fuel frame :
  exec open_file (S fuel) frame =
  (op <- liftM (code_at frame (IP frame)) ;;
   s <- dispatch (VM_Class open_file fuel) (callMethod_ (exec open_file fuel)) fuel op frame ;;
   match s with
   | Return v => retM v
   | Next frame => exec open_file fuel (advance frame)
   end)%M.
Proof. reflexivity. Qed.

Lemma exec_step open_file fuel frame op vm :
  code_at frame (IP frame) = Ok op ->
  exec open_file (S fuel) frame vm =
  (s <- dispatch (VM_Class open_file fuel) (callMethod_ (exec open_file fuel)) fuel op frame ;;
   match s with
   | Return v => retM v
   | Next frame => exec open_file fuel (advance frame)
   end)%M vm.
Proof. intros H. rewrite exec_S. unfold bindM at 1, liftM. now rewrite H. Qed.

Lemma pop_app (f : Frame) (s : list Value) (v : Value) :
  Stack f = s ++ [v] -> pop f = Ok (v, set_Stack s f).
Proof.
  intros H. unfold pop. rewrite H, length_app. simpl.
  replace (length s + 1 - 1)%nat with (length s) by lia.
  rewrite lookup_app_r by lia. rewrite Nat.sub_diag. simpl.
  now rewrite take_app_length.
Qed.

(** An opcode without a handler leaves the switch with nothing done. *)
Lemma dispatch_no_handler vmClass vmcallMethod fuel op frame :
  has_handler op = false ->
  dispatch vmClass vmcallMethod fuel op frame = retM (Next frame).
Proof. destruct op; intros H; try discriminate H; reflexivity. Qed.

(** [swrap 32] is the two's-complement reduction to 32 bits. *)
Lemma swrap_wraps_to (z : Z) : wraps_to z (swrap 32 z).
Proof.
  unfold wraps_to, is_int32, swrap.
  change (32 - 1) with 31.
  pose proof (Z.mod_pos_bound (z + 2 ^ 31) (2 ^ 32) ltac:(lia)) as Hb.
  split; [lia|].
  pose proof (Z.div_mod (z + 2 ^ 31) (2 ^ 32) ltac:(lia)) as Hd.
  replace ((z + 2 ^ 31) mod 2 ^ 32 - 2 ^ 31 - z)
    with ((- ((z + 2 ^ 31) / 2 ^ 32)) * 2 ^ 32) by lia.
  apply Z.mod_mul. lia.
Qed.

Lemma arith_int32 (op : Z -> Z -> Z) (frame : Frame) (s : list Value) (x y : Z) :
  Stack frame = s ++ [VInt32 x; VInt32 y] ->
  arith as_int32 VInt32 op frame
  = Ok (Next (set_Stack (s ++ [VInt32 (op y x)]) frame)).
Proof.
  intros H. unfold arith.
  rewrite (pop_app frame (s ++ [VInt32 x]) (VInt32 y))
    by (rewrite H, <- app_assoc; reflexivity).
  simpl.
  rewrite (pop_app _ s (VInt32 x)) by reflexivity.
  reflexivity.
Qed.

(** ** Arithmetic *)

(** C9.  With the 32-bit integers [x] then [y] on top of the operand stack,
    IADD replaces them by [x + y], IMUL by [x * y] and ISUB (which pops
    [a = y] first and then [b = x], and pushes [b - a]) by [x - y], each
    reduced to its two's-complement 32-bit value. *)
Theorem int32_arithmetic_wraps vmClass vmcallMethod fuel (frame : Frame)
        (s : list Value) (x y : Z) (vm : VM) :
  Stack frame = s ++ [VInt32 x; VInt32 y] ->
  (exists r, dispatch vmClass vmcallMethod fuel x60 frame vm
             = (Ok (Next (set_Stack (s ++ [VInt32 r]) frame)), vm)
             /\ wraps_to (x + y) r) /\
  (exists r, dispatch vmClass vmcallMethod fuel x68 frame vm
             = (Ok (Next (set_Stack (s ++ [VInt32 r]) frame)), vm)
             /\ wraps_to (x * y) r) /\
  (exists r, dispatch vmClass vmcallMethod fuel x64 frame vm
             = (Ok (Next (set_Stack (s ++ [VInt32 r]) frame)), vm)
             /\ wraps_to (x - y) r).
Proof.
  intros H. unfold dispatch, liftM.
  repeat split.
  - exists (swrap 32 (y + x)). rewrite (arith_int32 _ _ _ _ _ H).
    split; [reflexivity|]. rewrite (Z.add_comm y x). apply swrap_wraps_to.
  - exists (swrap 32 (y * x)). rewrite (arith_int32 _ _ _ _ _ H).
    split; [reflexivity|]. rewrite (Z.mul_comm y x). apply swrap_wraps_to.
  - exists (swrap 32 (x - y)). rewrite (arith_int32 _ _ _ _ _ H).
    split; [reflexivity|]. apply swrap_wraps_to.
Qed.

(** IADD on 2147483647 and 1. *)
Lemma int32_arithmetic_wraps_witness :
  let frame := mkFrame 0 0 [x60] [] [VInt32 2147483647; VInt32 1] in
  exists r, dispatch (fun _ => liftM Timeout) (fun _ _ _ => liftM Timeout)
                     0 x60 frame (New [])
            = (Ok (Next (set_Stack ([] ++ [VInt32 r]) frame)), New [])
            /\ wraps_to (2147483647 + 1) r.
Proof.
  intros frame.
  exact (proj1 (int32_arithmetic_wraps (fun _ => liftM Timeout)
                 (fun _ _ _ => liftM Timeout) 0 frame [] 2147483647 1 (New [])
                 eq_refl)).
Defined.

(** [add(2, 3)] is 5, and [add] wraps around at 2^31. *)
Example call_add :
  fst (Call example_files 30 "A" "add" [VInt32 2; VInt32 3] example_vm)
  = Ok (VInt32 5) /\
  fst (Call example_files 30 "A" "add" [VInt32 2147483647; VInt32 1] example_vm)
  = Ok (VInt32 (-2147483648)).
Proof. split; vm_compute; reflexivity. Qed.

(** ** Descriptors *)




(** What the specification's counting gives on the two descriptors. *)
Example argc_spec_examples :
  argc_spec "([I)V" = 1 /\ argc_spec "(I[JLjava/lang/String;)V" = 3.
Proof. split; reflexivity. Qed.

(** C3.  [argc] has no case for the array prefix: a '[' is counted as an
    argument of its own, so [argc "([I)V"] is 2 (not 1) and
    [argc "(I[JLjava/lang/String;)V"] is 4 (not 3). *)
Theorem argc_counts_array_prefix :
  argc "([I)V" = 2 /\ argc "(I[JLjava/lang/String;)V" = 4.
Proof. split; reflexivity. Qed.

(** C4.  The handler of LCONST_0 (0x09) pushes the 64-bit integer 5, in
    every frame; the value 0 the opcode names is never pushed. *)
Theorem lconst_0_pushes_5 vmClass vmcallMethod fuel (frame : Frame) (vm : VM) :
  dispatch vmClass vmcallMethod fuel x09 frame vm
  = (Ok (Next (push (VInt64 5) frame)), vm).
Proof. reflexivity. Qed.

(** LCONST_0; LRETURN returns 5. *)
Example lconst_0_lreturn :
  exec no_files 2 (mkFrame 0 0 [x09; xad] [] []) (New [])
  = (Ok (VInt64 5), New []).
Proof. reflexivity. Qed.

(** C5, as stated, fails: IDIV with the divisor 0 on top of the stack,
    followed by RETURN, returns normally. *)
Lemma idiv_by_zero_returns_normally :
  let frame := mkFrame 0 0 [x6c; xb1] [] [VInt32 7; VInt32 0] in
  code_at frame (IP frame) = Ok x6c /\
  Stack frame = [VInt32 7; VInt32 0] /\
  exec no_files 2 frame (New []) = (Ok VNil, New []).
Proof. repeat split. Qed.

(** C5, amended.  The switch has no case for IDIV (0x6C) or LDIV (0x6D):
    whatever is on the operand stack, a zero divisor included, the
    instruction changes neither the stack nor the VM and raises no error,
    and execution continues with the next byte of the code. *)
Theorem idiv_ldiv_are_skipped open_file fuel (frame : Frame) (op : byte) (vm : VM) :
  code_at frame (IP frame) = Ok op ->
  op = x6c \/ op = x6d ->
  exec open_file (S fuel) frame vm = exec open_file fuel (advance frame) vm.
Proof.
  intros Hop Hdiv. rewrite (exec_step _ _ _ _ _ Hop).
  rewrite dispatch_no_handler by (destruct Hdiv; subst op; reflexivity).
  reflexivity.
Qed.

(** LDIV with the divisor 0 on top of the stack. *)
Lemma idiv_ldiv_are_skipped_witness :
  let frame := mkFrame 0 0 [x6d; xb1] [] [VInt64 7; VInt64 0] in
  exec no_files 2 frame (New []) = exec no_files 1 (advance frame) (New []).
Proof.
  intros frame.
  apply (idiv_ldiv_are_skipped no_files 1 frame x6d (New []));
    [reflexivity | right; reflexivity].
Defined.

(** C6, as stated, fails: the byte 0xFF has no case in the switch, and the
    code 0xFF; RETURN returns normally. *)
Lemma unknown_opcode_returns_normally :
  let frame := mkFrame 0 0 [xff; xb1] [] [] in
  code_at frame (IP frame) = Ok xff /\
  has_handler xff = false /\
  exec no_files 2 frame (New []) = (Ok VNil, New []).
Proof. repeat split. Qed.

(** C6, amended.  An opcode without a handler (no case in the switch, or a
    case with an empty body) is skipped: it changes neither the frame nor
    the VM and raises no error, and execution continues with the next byte
    of the code. *)
Theorem opcode_without_handler_is_skipped open_file fuel (frame : Frame)
        (op : byte) (vm : VM) :
  code_at frame (IP frame) = Ok op ->
  has_handler op = false ->
  exec open_file (S fuel) frame vm = exec open_file fuel (advance frame) vm.
Proof.
  intros Hop Hno. rewrite (exec_step _ _ _ _ _ Hop).
  now rewrite dispatch_no_handler.
Qed.

(** The byte 0xCA, which has no case in the switch. *)
Lemma opcode_without_handler_is_skipped_witness :
  let frame := mkFrame 0 0 [xca; xb1] [] [VInt32 1] in
  exec no_files 2 frame (New []) = exec no_files 1 (advance frame) (New []).
Proof.
  intros frame.
  apply (opcode_without_handler_is_skipped no_files 1 frame xca (New []));
    reflexivity.
Defined.

(** When the code ends on an opcode without a handler, the next fetch is
    out of range: the call panics, it returns no error. *)
Example unknown_opcode_at_end_panics :
  exec no_files 2 (mkFrame 0 0 [xff] [] []) (New [])
  = (Panic IndexOutOfRange, New []).
Proof. reflexivity. Qed.

(** C2.  A GOTO at offset [p] whose two operand bytes read as the unsigned
    16-bit number [u] continues at offset [p - 2 + u] modulo 2^32: the
    operand is not sign-extended, and the target is two bytes short of
    [p + u]. *)
Theorem goto_lands_two_short open_file fuel (frame : Frame) (u : Z) (vm : VM) :
  code_at frame (IP frame) = Ok xa7 ->
  code_u16 frame = Ok u ->
  exec open_file (S fuel) frame vm
  = exec open_file fuel (set_IP (wrap 32 (wrap 32 (IP frame - 3 + u) + 1)) frame) vm.
Proof.
  intros Hop Hu. rewrite (exec_step _ _ _ _ _ Hop).
  unfold dispatch, bindM, liftM. rewrite Hu. reflexivity.
Qed.

(** GOTO +5 at offset 0: the next opcode is fetched at offset 3. *)
Lemma goto_lands_two_short_witness :
  let frame := mkFrame 0 0 [xa7; x00; x05; x03; xac; x04; xac] [] [] in
  exec no_files 3 frame (New [])
  = exec no_files 2 (set_IP 3 frame) (New []).
Proof.
  intros frame.
  apply (goto_lands_two_short no_files 2 frame 5 (New [])); reflexivity.
Defined.

(** GOTO +5 at offset 0 should reach ICONST_1; IRETURN at offset 5; the
    call runs ICONST_0; IRETURN at offset 3 instead.  GOTO -1 at offset 1
    should reach offset 0; the fetch is at offset 65534 and panics. *)
Example goto_examples :
  exec no_files 4 (mkFrame 0 0 [xa7; x00; x05; x03; xac; x04; xac] [] []) (New [])
  = (Ok (VInt32 0), New []) /\
  exec no_files 4 (mkFrame 0 0 [x00; xa7; xff; xff; xb1] [] []) (New [])
  = (Panic IndexOutOfRange, New []).
Proof. split; reflexivity. Qed.

(** ** The binary reader *)

Lemma bytes_latched (n : nat) (l : loader) (e : error) :
  err l = Some e -> bytes n l = (Ok (replicate n x00), l).
Proof. intros H. unfold bytes. now rewrite H. Qed.

Lemma do_read_latched (rq : read) (l : loader) (e : error) :
  err l = Some e -> do_read rq l = (Ok (zero_value rq), l).
Proof.
  intros H.
  destruct rq; unfold do_read, u1, u2, u4, u8, bindL;
    rewrite (bytes_latched _ _ _ H); reflexivity.
Qed.

(** C8.  Once an error is latched in a loader, every sequence of reads
    (u1, u2, u4, u8, bytes) returns the zero value of each requested size
    and leaves the loader as it was: no input is consumed and the latched
    error is the one the final consumer sees. *)
Theorem loader_error_is_sticky (rqs : list read) (l : loader) (e : error) :
  err l = Some e ->
  do_reads rqs l = (Ok (map zero_value rqs), l).
Proof.
  intros H. induction rqs as [|rq rest IH]; [reflexivity|].
  simpl. unfold bindL at 1. rewrite (do_read_latched _ _ _ H).
  unfold bindL. rewrite IH. reflexivity.
Qed.

(** A two-byte read on a one-byte input latches the error; the reads that
    follow return zeros and keep input and error. *)
Lemma loader_error_is_sticky_witness :
  let l := snd (u2 (mkLoader [x2a] None)) in
  err l = Some ErrUnexpectedEOF /\
  do_reads [ReadU1; ReadU4; ReadBytes 3; ReadU2; ReadU8] l
  = (Ok [Int 0; Int 0; Bytes [x00; x00; x00]; Int 0; Int 0], l).
Proof.
  intros l. split; [reflexivity|].
  apply (loader_error_is_sticky [ReadU1; ReadU4; ReadBytes 3; ReadU2; ReadU8]
                                l ErrUnexpectedEOF).
  reflexivity.
Defined.

(** The read that fails is not a no-op: it consumes what is left and returns
    the partial data, zero-filled. *)
Example failing_read_consumes :
  u2 (mkLoader [x2a] None) = (Ok 10752, mkLoader [] (Some ErrUnexpectedEOF)).
Proof. reflexivity. Qed.

(** The reads keep a latched error, the default case of [cpinfo] does not:
    after a failed read the tag reads as 0, which is not a supported tag,
    and the assignment to [l.err] replaces the latched error. *)
Example unsupported_tag_replaces_latched_error :
  (tag <- u1 ;; cpentry tag)%L (mkLoader [] (Some ErrEOF))
  = (Ok (Const0 0), mkLoader [] (Some (ErrUnsupportedTag 0))).
Proof. reflexivity. Qed.

(** ** Method entry *)

Lemma copy_args_in_bounds (args : list Value) :
  forall (i : nat) (locals : list Value),
    (i + length args <= length locals)%nat ->
    exists locals',
      copy_args i args locals = Ok locals' /\
      length locals' = length locals /\
      (forall j v, args !! j = Some v -> locals' !! (i + j)%nat = Some v) /\
      (forall k, (k < i \/ i + length args <= k)%nat -> locals' !! k = locals !! k).
Proof.
  induction args as [|a rest IH]; intros i locals Hlen; simpl in *.
  - exists locals. repeat split; auto. intros j v Hj. discriminate Hj.
  - assert (Hi : (i <? length locals)%nat = true) by (apply Nat.ltb_lt; lia).
    rewrite Hi.
    destruct (IH (S i) (<[i := a]> locals)) as (locals' & Hc & Hl & Hargs & Hrest).
    { rewrite length_insert. lia. }
    exists locals'. rewrite length_insert in Hl.
    split; [exact Hc|]. split; [exact Hl|]. split.
    + intros [|j] v Hj; simpl in Hj.
      * injection Hj as <-. rewrite Nat.add_0_r.
        rewrite Hrest by lia. apply list_lookup_insert_eq. lia.
      * replace (i + S j)%nat with (S i + j)%nat by lia. now apply Hargs.
    + intros k Hk. rewrite Hrest by lia.
      apply list_lookup_insert_ne. lia.
Qed.

Lemma copy_args_out_of_bounds (args : list Value) :
  forall (i : nat) (locals : list Value),
    (i <= length locals)%nat ->
    (length locals < i + length args)%nat ->
    copy_args i args locals = Panic IndexOutOfRange.
Proof.
  induction args as [|a rest IH]; intros i locals Hi Hlen; simpl in *; [lia|].
  destruct (i <? length locals)%nat eqn:E; [|reflexivity].
  apply Nat.ltb_lt in E.
  apply IH; rewrite length_insert; lia.
Qed.

Lemma BigEndian_nonneg (bs : list byte) : 0 <= BigEndian bs.
Proof.
  unfold BigEndian.
  assert (H : forall acc, 0 <= acc ->
            0 <= fold_left (fun acc b => Z.lor (Z.shiftl acc 8) (byteZ b)) bs acc).
  { induction bs as [|b bs IH]; intros acc Hacc; simpl; [exact Hacc|].
    apply IH. apply Z.lor_nonneg. split.
    - apply Z.shiftl_nonneg. exact Hacc.
    - unfold byteZ. lia. }
  apply H. lia.
Qed.

(** C10.  For a method whose attributes hold a Code attribute [a] (named
    "Code", payload longer than the 8-byte header) with [max_locals] in
    bytes 2 and 3: a call with more arguments than [max_locals] panics in
    the argument copy with an index out of range, whatever the fuel, and
    returns no error; a call with at most [max_locals] arguments runs [exec]
    on a frame of [max_locals] locals in which local [i] is argument [i]
    and the other locals are nil. *)
Theorem callMethod_argument_copy open_file fuel (obj : nat) (m : Field)
        (a : Attribute) (args : list Value) (vm : VM) :
  List.find is_Code (Field_Attributes m) = Some a ->
  let max_locals := BigEndian (take 2 (drop 2 (Attribute_Data a))) in
  (max_locals < Z.of_nat (length args) ->
   callMethod open_file fuel obj m args vm = (Panic IndexOutOfRange, vm)) /\
  (Z.of_nat (length args) <= max_locals ->
   exists frame,
     callMethod open_file fuel obj m args vm = exec open_file fuel frame vm /\
     Frame_Class frame = obj /\ IP frame = 0 /\ Stack frame = [] /\
     Code frame = drop 8 (Attribute_Data a) /\
     Z.of_nat (length (Locals frame)) = max_locals /\
     (forall i v, args !! i = Some v -> Locals frame !! i = Some v) /\
     (forall i, (length args <= i)%nat -> Z.of_nat i < max_locals ->
                Locals frame !! i = Some VNil)).
Proof.
  intros Hfind max_locals.
  pose proof (BigEndian_nonneg (take 2 (drop 2 (Attribute_Data a)))) as Hnn.
  fold max_locals in Hnn.
  unfold callMethod, callMethod_. rewrite Hfind.
  unfold bindM, liftM, new_frame. fold max_locals.
  split; intros Hn.
  - rewrite copy_args_out_of_bounds; [reflexivity | lia |].
    rewrite length_replicate. lia.
  - destruct (copy_args_in_bounds args 0 (replicate (Z.to_nat max_locals) VNil))
      as (locals' & Hc & Hl & Hargs & Hrest).
    { rewrite length_replicate. lia. }
    rewrite Hc. simpl.
    rewrite length_replicate in Hl.
    eexists. split; [reflexivity|]. simpl.
    repeat split; try reflexivity.
    + lia.
    + intros i v Hi. apply (Hargs i v Hi).
    + intros i Hi Hlt. rewrite Hrest by lia.
      apply lookup_replicate_2. lia.
Qed.

(** A method with [max_locals = 1] called with two arguments. *)
Lemma callMethod_argument_copy_witness :
  let a := mkAttribute "Code" [x00; x01; x00; x01; x00; x00; x00; x01; xb1] in
  let m := mkField 9 "f" "(I)V" [a] in
  callMethod no_files 5 0 m [VInt32 1; VInt32 2] (New [])
  = (Panic IndexOutOfRange, New []).
Proof.
  intros a m.
  apply (proj1 (callMethod_argument_copy no_files 5 0%nat m a
                  [VInt32 1; VInt32 2] (New []) eq_refl)).
  vm_compute. reflexivity.
Defined.

(** The same panic through [VM.CallMethod], the entry the invoke opcodes
    use, and through [VM.Call]: both hand their arguments to
    [VM.callMethod] unchanged. *)
Example too_many_arguments_panic :
  let vm := snd (VM_Class example_files 30 "A" example_vm) in
  CallMethod example_files 30 1 "one" "()I" [VInt32 1] vm
  = (Panic IndexOutOfRange, vm) /\
  Call example_files 30 "A" "one" [VInt32 1] vm = (Panic IndexOutOfRange, vm).
Proof. split; vm_compute; reflexivity. Qed.

(** ** Inversion of successful computations *)

Lemma bindM_Ok {A B} (m : M A) (k : A -> M B) (vm vm' : VM) (b : B) :
  bindM m k vm = (Ok b, vm') ->
  exists a vm1, m vm = (Ok a, vm1) /\ k a vm1 = (Ok b, vm').
Proof.
  unfold bindM. destruct (m vm) as [[a| | |] vm1]; intros H; try discriminate H.
  exists a, vm1. split; [reflexivity | exact H].
Qed.

Lemma liftM_Ok {A} (x : result A) (vm vm' : VM) (a : A) :
  liftM x vm = (Ok a, vm') -> x = Ok a /\ vm' = vm.
Proof. unfold liftM. intros H. injection H as -> ->. split; reflexivity. Qed.

Lemma retM_Ok {A} (x a : A) (vm vm' : VM) :
  retM x vm = (Ok a, vm') -> a = x /\ vm' = vm.
Proof. unfold retM. intros H. injection H as -> ->. split; reflexivity. Qed.

(** Decompose a hypothesis [m vm = (Ok _, _)] along the binds of [m]. *)
Ltac inv_M H :=
  repeat match type of H with
  | bindM _ _ _ = (Ok _, _) =>
      let a := fresh "a" in let vm1 := fresh "vm" in
      let H1 := fresh "H" in
      apply bindM_Ok in H as (a & vm1 & H1 & H);
      try (apply liftM_Ok in H1 as [H1 ->]);
      try (apply retM_Ok in H1 as [-> ->])
  end.

Lemma slice_to_Ok (s stack : list Value) (high : Z) :
  slice_to s high = Ok stack -> stack = take (Z.to_nat high) s.
Proof.
  unfold slice_to. destruct (high <? 0); intros H; [discriminate H|].
  now injection H as <-.
Qed.

Lemma slice_from_Ok (s args : list Value) (low : Z) :
  slice_from s low = Ok args -> args = drop (Z.to_nat low) s.
Proof.
  unfold slice_from. destruct (_ || _); intros H; [discriminate H|].
  now injection H as <-.
Qed.

(** The prologue reads the VM and leaves it as it is. *)
Lemma member_ref_Ok (fuel : nat) (frame : Frame) (vm vm' : VM)
      (r : string * string * string) :
  member_ref fuel frame vm = (Ok r, vm') -> vm' = vm.
Proof.
  unfold member_ref. intros H.
  apply bindM_Ok in H as (this & vm1 & Hd & H).
  unfold deref in Hd. destruct (heap vm !! Frame_Class frame); [|discriminate Hd].
  injection Hd as _ <-.
  inv_M H. now apply retM_Ok in H as [_ ->].
Qed.

(** C1.  When the handler of INVOKEVIRTUAL, INVOKESPECIAL or INVOKESTATIC
    completes, the referenced method [name] with descriptor [desc] was
    called on the stack slice [args] and returned some [res]; the frame the
    handler leaves is the old frame, past the operand, with the top
    [argc desc] slots of its stack removed.  [res] is dropped whatever
    [desc] declares: no result is ever pushed. *)
Theorem invoke_discards_result vmClass vmcallMethod fuel (op : byte)
        (frame frame' : Frame) (vm vm' : VM) :
  op = xb6 \/ op = xb7 \/ op = xb8 ->
  dispatch vmClass vmcallMethod fuel op frame vm = (Ok (Next frame'), vm') ->
  let len := Z.of_nat (length (Stack frame)) in
  exists (className name desc : string) (c : nat) (vm1 : VM) (res : Value),
    member_ref fuel frame vm = (Ok (className, name, desc), vm) /\
    vmClass className vm = (Ok c, vm1) /\
    CallMethod_ vmcallMethod c name desc
      (drop (Z.to_nat (len - argc desc - receiver_slots op))
            (Stack frame)) vm1
    = (Ok res, vm') /\
    frame' = set_Stack (take (Z.to_nat (len - argc desc)) (Stack frame))
                       (set_IP (wrap 32 (IP frame + 2)) frame).
Proof.
  intros Hop H len.
  assert (Href : exec_ref vmClass vmcallMethod fuel op frame vm
                 = (Ok (Next frame'), vm'))
    by (destruct Hop as [-> | [-> | ->]]; exact H).
  clear H. unfold exec_ref in Href.
  apply bindM_Ok in Href as ([[className name] desc] & vm0 & Hr & H).
  pose proof (member_ref_Ok _ _ _ _ _ Hr) as ->.
  apply bindM_Ok in H as (c & vm1 & Hc & H).
  exists className, name, desc, c, vm1.
  destruct Hop as [-> | [-> | ->]];
    apply bindM_Ok in H as (args & vm2 & Ha & H);
    apply liftM_Ok in Ha as [Ha ->];
    apply bindM_Ok in H as (res & vm3 & Hcall & H);
    apply bindM_Ok in H as (stack & vm4 & Hs & H);
    apply liftM_Ok in Hs as [Hs ->];
    apply retM_Ok in H as [H ->];
    injection H as ->;
    apply slice_to_Ok in Hs; apply slice_from_Ok in Ha; simpl in Ha, Hs;
    subst args stack; exists res;
    (split; [exact Hr|]); (split; [exact Hc|]); (split; [|reflexivity]).
  - exact Hcall.
  - exact Hcall.
  - unfold receiver_slots. rewrite Z.sub_0_r. exact Hcall.
Qed.

(** INVOKESTATIC A.one in [A.main], with 5 on the stack: [A.one] returns 1,
    and the handler leaves the stack as it was ([argc "()I" = 0]). *)
Lemma invoke_discards_result_witness :
  let vm := snd (VM_Class example_files 30 "A" example_vm) in
  let frame := mkFrame 1 1 [x08; xb8; x00; x09; xac] [] [VInt32 5] in
  let frame' := mkFrame 1 3 [x08; xb8; x00; x09; xac] [] [VInt32 5] in
  exists (className name desc : string) (c : nat) (vm1 : VM) (res : Value),
    member_ref 30 frame vm = (Ok (className, name, desc), vm) /\
    VM_Class example_files 30 className vm = (Ok c, vm1) /\
    CallMethod_ (callMethod_ (exec example_files 30)) c name desc
      (drop (Z.to_nat (1 - argc desc - receiver_slots xb8)) (Stack frame)) vm1
    = (Ok res, vm) /\
    frame' = set_Stack (take (Z.to_nat (1 - argc desc)) (Stack frame))
                       (set_IP (wrap 32 (IP frame + 2)) frame).
Proof.
  intros vm frame frame'.
  apply (invoke_discards_result (VM_Class example_files 30)
           (callMethod_ (exec example_files 30)) 30 xb8 frame frame' vm vm).
  - right; right; reflexivity.
  - vm_compute. reflexivity.
Defined.

(** [A.one()] returns 1, and [A.main()], which is
    ICONST_5; INVOKESTATIC A.one; IRETURN, returns 5: the result of the
    invocation never reaches the stack of [main]. *)
Example invokestatic_result_lost :
  fst (Call example_files 30 "A" "one" [] example_vm) = Ok (VInt32 1) /\
  fst (Call example_files 30 "A" "main" [] example_vm) = Ok (VInt32 5).
Proof. split; vm_compute; reflexivity. Qed.

(** ** The registry only grows, and a class object keeps its class *)

Lemma extends_refl (vm : VM) : extends vm vm.
Proof. split; [reflexivity|]. intros a o H. exists o. split; [exact H | reflexivity]. Qed.

Lemma extends_trans (vm1 vm2 vm3 : VM) :
  extends vm1 vm2 -> extends vm2 vm3 -> extends vm1 vm3.
Proof.
  intros [Hc1 Hh1] [Hc2 Hh2]. split; [etransitivity; eassumption|].
  intros a o H.
  destruct (Hh1 a o H) as (o' & H' & E').
  destruct (Hh2 a o' H') as (o'' & H'' & E'').
  exists o''. split; [exact H'' | congruence].
Qed.

Lemma preserving_retM {A} (a : A) : preserving (retM a).
Proof. intros vm x vm' H. injection H as _ <-. apply extends_refl. Qed.

Lemma preserving_liftM {A} (r : result A) : preserving (liftM r).
Proof. intros vm x vm' H. injection H as _ <-. apply extends_refl. Qed.

Lemma preserving_bindM {A B} (m : M A) (k : A -> M B) :
  preserving m -> (forall a, preserving (k a)) -> preserving (bindM m k).
Proof.
  intros Hm Hk vm x vm' H. unfold bindM in H.
  destruct (m vm) as [r vm1] eqn:E. apply Hm in E.
  destruct r; try (injection H as _ <-; exact E).
  eapply extends_trans; [exact E|]. eapply Hk. exact H.
Qed.

Lemma preserving_deref (a : nat) : preserving (deref a).
Proof.
  intros vm x vm' H. unfold deref in H.
  destruct (heap vm !! a); injection H as _ <-; apply extends_refl.
Qed.

Lemma preserving_find_class (name : string) : preserving (find_class name).
Proof. intros vm x vm' H. injection H as _ <-. apply extends_refl. Qed.

Lemma preserving_get_ClassPath : preserving get_ClassPath.
Proof. intros vm x vm' H. injection H as _ <-. apply extends_refl. Qed.

Lemma preserving_get_Native (key : string) : preserving (get_Native key).
Proof. intros vm x vm' H. injection H as _ <-. apply extends_refl. Qed.

Lemma preserving_alloc (o : Object) : preserving (alloc o).
Proof.
  intros vm x vm' H. injection H as _ <-. split; simpl; [reflexivity|].
  intros a o0 Ha. exists o0. split; [|reflexivity].
  apply lookup_app_l_Some. exact Ha.
Qed.

Lemma preserving_register (c : nat) : preserving (register c).
Proof.
  intros vm x vm' H. injection H as _ <-. split; simpl.
  - now apply prefix_app_r.
  - intros a o Ha. exists o. split; [exact Ha | reflexivity].
Qed.

Lemma preserving_Object_SetField (o : nat) (name : string) (value : Value) :
  preserving (Object_SetField o name value).
Proof.
  intros vm x vm' H. unfold Object_SetField in H.
  destruct (heap vm !! o) as [c|] eqn:Ho; [|injection H as _ <-; apply extends_refl].
  destruct (Fields c) as [m|]; [|injection H as _ <-; apply extends_refl].
  injection H as _ <-. split; simpl; [reflexivity|].
  intros a o0 Ha. destruct (decide (a = o)) as [->|Hne].
  - eexists. split.
    + apply list_lookup_insert_eq. eapply lookup_lt_Some. exact Ho.
    + simpl. congruence.
  - exists o0. split; [|reflexivity].
    rewrite list_lookup_insert_ne by congruence. exact Ha.
Qed.

Create HintDb preserving.
#[local] Hint Resolve preserving_retM preserving_liftM preserving_deref
  preserving_find_class preserving_get_ClassPath preserving_get_Native
  preserving_alloc preserving_register preserving_Object_SetField : preserving.

(** Reduce a goal [preserving m] along the structure of [m]. *)
Ltac preserving :=
  repeat first
    [ solve [auto with preserving]
    | apply preserving_bindM; [|intros ?]
    | match goal with
      | |- preserving (match ?x with _ => _ end) => destruct x
      | |- preserving (let _ := _ in _) => cbv zeta
      end ].

Lemma preserving_Object_Field (o : nat) (name : string) :
  preserving (Object_Field o name).
Proof. unfold Object_Field. preserving. Qed.
#[local] Hint Resolve preserving_Object_Field : preserving.

Lemma preserving_Object_New (o : nat) : preserving (Object_New o).
Proof. unfold Object_New. preserving. Qed.
#[local] Hint Resolve preserving_Object_New : preserving.

Lemma preserving_Object_Const (fuel o : nat) (index : Z) :
  preserving (Object_Const fuel o index).
Proof. unfold Object_Const. preserving. Qed.
#[local] Hint Resolve preserving_Object_Const : preserving.

Lemma preserving_Object_Method (o : nat) (name desc : string) :
  preserving (Object_Method o name desc).
Proof. unfold Object_Method. preserving. Qed.
#[local] Hint Resolve preserving_Object_Method : preserving.

Section Preservation.

Variable open_file : string -> string -> option (list byte).
Variable vmClass : string -> M nat.
Variable vmcallMethod : nat -> Field -> list Value -> M Value.
Hypothesis vmClass_preserving : forall name, preserving (vmClass name).
Hypothesis vmcallMethod_preserving :
  forall obj m args, preserving (vmcallMethod obj m args).

Lemma preserving_CallMethod_ obj method desc args :
  preserving (CallMethod_ vmcallMethod obj method desc args).
Proof. unfold CallMethod_. preserving. Qed.
#[local] Hint Resolve preserving_CallMethod_ : preserving.

Lemma preserving_exec_ref fuel op frame :
  preserving (exec_ref vmClass vmcallMethod fuel op frame).
Proof. unfold exec_ref. preserving. Qed.
#[local] Hint Resolve preserving_exec_ref : preserving.

Lemma preserving_dispatch fuel op frame :
  preserving (dispatch vmClass vmcallMethod fuel op frame).
Proof. destruct op; unfold dispatch; preserving. Qed.

Lemma preserving_define_class (c : Class) :
  preserving (define_class vmClass vmcallMethod c).
Proof. unfold define_class. preserving. Qed.
#[local] Hint Resolve preserving_define_class : preserving.

Lemma preserving_load_class fuel name paths :
  preserving (load_class open_file vmClass vmcallMethod fuel name paths).
Proof. induction paths as [|path rest IH]; simpl; preserving. Qed.

End Preservation.

Lemma preserving_callMethod_ (exec : Frame -> M Value) obj m args :
  (forall frame, preserving (exec frame)) ->
  preserving (callMethod_ exec obj m args).
Proof. intros H. unfold callMethod_. preserving. Qed.

Lemma preserving_machine open_file (fuel : nat) :
  (forall name, preserving (VM_Class open_file fuel name)) /\
  (forall frame, preserving (exec open_file fuel frame)).
Proof.
  induction fuel as [|fuel [IHC IHE]].
  - split; [intros name | intros frame]; simpl; preserving.
  - assert (IHM : forall obj m args,
               preserving (callMethod_ (exec open_file fuel) obj m args))
      by (intros; now apply preserving_callMethod_).
    pose proof (preserving_load_class open_file _ _ IHC IHM) as HL.
    pose proof (preserving_dispatch _ _ IHC IHM) as HD.
    split; [intros name | intros frame]; simpl; preserving.
Qed.

(** ** Class lookup *)

Lemma VM_Class_hit open_file (fuel : nat) (name : string) (vm : VM) (c : nat) :
  scan_classes (heap vm) (Classes vm) name = Ok (Some c) ->
  VM_Class open_file fuel name vm = (Ok c, vm).
Proof.
  intros H. destruct fuel; simpl; unfold bindM, find_class; rewrite H; reflexivity.
Qed.

Lemma VM_Class_miss open_file (fuel : nat) (name : string) (vm : VM) :
  unregistered vm name ->
  VM_Class open_file (S fuel) name vm
  = load_class open_file (VM_Class open_file fuel)
               (callMethod_ (exec open_file fuel)) fuel name (ClassPath vm) vm.
Proof.
  intros H. simpl. unfold bindM at 1, find_class. rewrite H. reflexivity.
Qed.

Lemma load_class_class_file open_file vmClass vmcallMethod fuel name paths cls :
  class_file open_file fuel name paths = Some cls ->
  load_class open_file vmClass vmcallMethod fuel name paths
  = define_class vmClass vmcallMethod cls.
Proof.
  induction paths as [|path rest IH]; simpl; [discriminate|].
  destruct (open_file path (name ++ ".class")%string) as [input|]; [|exact IH].
  destruct (Load fuel input); try discriminate; [|exact IH].
  intros H. injection H as ->. reflexivity.
Qed.

(** A scan that ended without a match on [cs] skips [cs] again in any later
    heap, because the class of an object does not change. *)
Lemma scan_classes_skip (h h' : list Object) (name : string) (cs rest : list nat) :
  scan_classes h cs name = Ok None ->
  (forall a o, h !! a = Some o ->
     exists o', h' !! a = Some o' /\ Object_Class o' = Object_Class o) ->
  scan_classes h' (cs ++ rest) name = scan_classes h' rest name.
Proof.
  intros Hscan Hh. induction cs as [|c cs IH]; [reflexivity|].
  simpl in *.
  destruct (h !! c) as [o|] eqn:Hc; [|discriminate Hscan].
  destruct (Hh c o Hc) as (o' & -> & ->).
  destruct (String.eqb (Name (Object_Class o)) name); [discriminate Hscan|].
  now apply IH.
Qed.

(** A successful [define_class] returns the object it allocated and
    registered right after the super class was resolved. *)
Lemma define_class_Ok vmClass vmcallMethod (cls : Class) (vm vm1 : VM) (c : nat) :
  (forall obj m args, preserving (vmcallMethod obj m args)) ->
  define_class vmClass vmcallMethod cls vm = (Ok c, vm1) ->
  exists (super : option nat) (vm_s : VM),
    (Super cls = ""%string /\ vm_s = vm \/
     Super cls <> ""%string /\ exists s, vmClass (Super cls) vm = (Ok s, vm_s)) /\
    c = length (heap vm_s) /\
    extends (mkVM (ClassPath vm_s) (Classes vm_s ++ [c]) (Native vm_s)
                  (heap vm_s ++ [mkObject cls None super (Some ∅)])) vm1.
Proof.
  intros HM H. unfold define_class in H.
  apply bindM_Ok in H as (super & vm_s & Hsuper & H).
  apply bindM_Ok in H as (classObj & vm_a & Halloc & H).
  apply bindM_Ok in H as ([] & vm_r & Hreg & H).
  unfold alloc in Halloc. injection Halloc as <- <-.
  unfold register in Hreg. injection Hreg as <-. simpl in H.
  assert (Hres : c = length (heap vm_s) /\
                 extends (mkVM (ClassPath vm_s) (Classes vm_s ++ [length (heap vm_s)])
                               (Native vm_s)
                               (heap vm_s ++ [mkObject cls None super (Some ∅)])) vm1).
  { destruct (Method _ _ _) as [m| | |];
      try (apply retM_Ok in H as [-> ->]; split; [reflexivity | apply extends_refl]).
    apply bindM_Ok in H as (v & vm2 & Hcall & H).
    apply retM_Ok in H as [-> ->]. split; [reflexivity|].
    eapply HM. exact Hcall. }
  destruct Hres as [-> Hext].
  exists super, vm_s. split; [|split; [reflexivity | exact Hext]].
  destruct (String.eqb (Super cls) "") eqn:E.
  - left. apply retM_Ok in Hsuper as [_ ->].
    split; [now apply String.eqb_eq | reflexivity].
  - right. split; [now apply String.eqb_neq|].
    apply bindM_Ok in Hsuper as (s & vm2 & Hs & Hr).
    apply retM_Ok in Hr as [_ ->]. exists s. exact Hs.
Qed.

(** C7, amended.  Let a first lookup of [name] succeed with the class
    object [c].  If [name] was already registered, or if it was loaded from
    a class file that declares the name [name] and resolving its super class
    did not itself register [name], then every later lookup of [name],
    with any fuel (so without running any code), returns the same object
    [c] and leaves the VM, its registry included, as it was.  (The first
    lookup has fuel [S fuel]: the class file is loaded and the super class
    resolved with [fuel].) *)
Theorem second_lookup_same_object open_file (fuel : nat) (name : string)
        (vm vm1 : VM) (c : nat) :
  VM_Class open_file (S fuel) name vm = (Ok c, vm1) ->
  registered vm name \/
  (exists cls,
     class_file open_file fuel name (ClassPath vm) = Some cls /\
     Name cls = name /\
     (Super cls = ""%string \/
      exists s vm_s, VM_Class open_file fuel (Super cls) vm = (Ok s, vm_s) /\
                     unregistered vm_s name)) ->
  forall fuel2, VM_Class open_file fuel2 name vm1 = (Ok c, vm1).
Proof.
  intros H Hcond fuel2.
  destruct (scan_classes (heap vm) (Classes vm) name) as [[c0|]| | |] eqn:Hscan;
    (* had the scan itself failed, the first lookup would not have succeeded *)
    try (simpl in H; unfold bindM, find_class in H; rewrite Hscan in H;
         discriminate H).
  - (* registry hit *)
    rewrite (VM_Class_hit _ _ _ _ _ Hscan) in H. injection H as <- <-.
    now apply VM_Class_hit.
  - (* miss: the class is loaded *)
    destruct Hcond as [[c0 Hreg] | (cls & Hfile & Hname & Hsuper)];
      [congruence|].
    rewrite (VM_Class_miss _ _ _ _ Hscan) in H.
    rewrite (load_class_class_file _ _ _ _ _ _ _ Hfile) in H.
    destruct (preserving_machine open_file fuel) as [_ HE].
    apply define_class_Ok in H as (super & vm_s & Hs & -> & [Hpre Hheap]);
      [|intros; now apply preserving_callMethod_].
    simpl in Hpre, Hheap.
    assert (Hun : unregistered vm_s name).
    { destruct Hs as [[_ ->] | [Hne (s & Hs)]]; [exact Hscan|].
      destruct Hsuper as [He | (s' & vm_s' & Hs' & Hun)]; [contradiction|].
      rewrite Hs in Hs'. now injection Hs' as _ <-. }
    apply VM_Class_hit.
    destruct Hpre as [more Hmore]. rewrite Hmore, <- !app_assoc.
    rewrite (scan_classes_skip (heap vm_s) (heap vm1) name (Classes vm_s) _ Hun).
    + simpl.
      destruct (Hheap (length (heap vm_s)) (mkObject cls None super (Some ∅)))
        as (o' & -> & ->).
      { rewrite lookup_app_r by lia. now rewrite Nat.sub_diag. }
      simpl. rewrite Hname, String.eqb_refl. reflexivity.
    + intros a o Ha. apply Hheap. now apply lookup_app_l_Some.
Qed.

(** The first lookup of [Base] loads it, and its static initializer loads
    [Derived] in turn; a second lookup returns the same object and changes
    nothing. *)
Lemma second_lookup_same_object_witness :
  let vm1 := snd (VM_Class example_files 30 "Base" example_vm) in
  VM_Class example_files 0 "Base" vm1 = (Ok 1%nat, vm1).
Proof.
  intros vm1.
  apply (second_lookup_same_object example_files 29 "Base" example_vm vm1 1%nat).
  - vm_compute. reflexivity.
  - right.
    match eval vm_compute in (class_file example_files 29 "Base" (ClassPath example_vm)) with
    | Some ?cls => exists cls
    end.
    split; [vm_compute; reflexivity|].
    split; [reflexivity|].
    right. exists 0%nat, example_vm.
    split; vm_compute; reflexivity.
Defined.

(** C7, as stated, fails.  [Derived] extends [Base], and the static
    initializer of [Base] reads a static field of [Derived].  The first
    lookup of [Derived] succeeds with the object 3, the second lookup returns
    the object 2: while [Base] was resolved as the super class, its
    initializer looked [Derived] up and registered it (with a run of its
    [<clinit>]) before the outer lookup registered it again (with another
    run). *)
Lemma class_lookup_twice_differs :
  let vm1 := snd (VM_Class example_files 30 "Derived" example_vm) in
  fst (VM_Class example_files 30 "Derived" example_vm) = Ok 3%nat /\
  fst (VM_Class example_files 30 "Derived" vm1) = Ok 2%nat /\
  registry_names vm1
  = [Some "java/lang/Object"; Some "Base"; Some "Derived"; Some "Derived"]%string.
Proof. vm_compute. repeat split. Qed.

(** The file [Foo.class] declares the class [Bar]: every lookup of [Foo]
    loads the file again and registers one more class object. *)
Example class_lookup_of_misnamed_file :
  let vm1 := snd (VM_Class example_files 30 "Foo" example_vm) in
  let vm2 := snd (VM_Class example_files 30 "Foo" vm1) in
  fst (VM_Class example_files 30 "Foo" example_vm) = Ok 1%nat /\
  fst (VM_Class example_files 30 "Foo" vm1) = Ok 2%nat /\
  registry_names vm2 = [Some "java/lang/Object"; Some "Bar"; Some "Bar"]%string.
Proof. vm_compute. repeat split. Qed.

(* ===================================================================== *)
(** * Further properties *)
(* ===================================================================== *)

(** ** The binary reader, continued *)

Lemma byteZ_range (b : byte) : 0 <= byteZ b < 256.
Proof.
  unfold byteZ. pose proof (Byte.to_N_bounded b) as H.
  split; [apply N2Z.is_nonneg|]. lia.
Qed.

Lemma lor_shiftl_byte (acc : Z) (b : byte) :
  0 <= acc -> Z.lor (Z.shiftl acc 8) (byteZ b) = acc * 256 + byteZ b.
Proof.
  intros Hacc. pose proof (byteZ_range b) as Hb.
  rewrite Z.shiftl_mul_pow2 by lia. change (2 ^ 8) with 256.
  assert (Hland : Z.land (acc * 256) (byteZ b) = 0).
  { apply Z.bits_inj'. intros n Hn. rewrite Z.land_spec, Z.bits_0.
    destruct (Z.ltb_spec n 8) as [Hlt | Hge].
    - change 256 with (2 ^ 8). rewrite Z.mul_pow2_bits_low by lia. reflexivity.
    - destruct (Z.eq_dec (byteZ b) 0) as [-> | Hnz].
      + rewrite Z.bits_0. apply andb_false_r.
      + rewrite (Z.bits_above_log2 (byteZ b) n); [apply andb_false_r | lia |].
        assert (Z.log2 (byteZ b) < 8) by (apply Z.log2_lt_pow2; lia). lia. }
  rewrite <- Z.lxor_lor by exact Hland.
  symmetry. now apply Z.add_nocarry_lxor.
Qed.

(** X1.  [bytes n] never fails and always returns a buffer of exactly [n]
    bytes; what it leaves of the input is a suffix of the input it found,
    and an error that was latched stays. *)
Theorem bytes_returns_n_bytes (n : nat) (l l' : loader) (x : result (list byte)) :
  bytes n l = (x, l') ->
  (exists b, x = Ok b /\ length b = n) /\
  r l' `suffix_of` r l /\
  (forall e, err l = Some e -> err l' = Some e).
Proof.
  unfold bytes, ReadFull. intros H.
  destruct (err l) as [e|] eqn:He.
  - injection H as <- <-. repeat split.
    + eexists. split; [reflexivity | apply length_replicate].
    + reflexivity.
    + intros e' [= <-]. exact He.
  - destruct (n <=? length (r l))%nat eqn:Hn; injection H as <- <-; simpl.
    + apply Nat.leb_le in Hn. repeat split.
      * eexists. split; [reflexivity|]. rewrite length_take. lia.
      * apply suffix_drop.
      * intros e' [=].
    + apply Nat.leb_gt in Hn. repeat split.
      * eexists. split; [reflexivity|].
        rewrite length_app, length_replicate. lia.
      * apply suffix_nil.
      * intros e' [=].
Qed.

Lemma bytes_returns_n_bytes_witness :
  (exists b, fst (bytes 4 (mkLoader [x01; x02] None)) = Ok b /\ length b = 4%nat).
Proof.
  destruct (bytes_returns_n_bytes 4 (mkLoader [x01; x02] None) _ _ eq_refl)
    as [(b & Hb & Hl) _].
  exists b. split; [exact Hb | exact Hl].
Defined.

(** X2.  With no error latched and at least two bytes of input, [u2]
    consumes two bytes and returns [256 * b0 + b1]. *)
Theorem u2_decodes_big_endian (b0 b1 : byte) (rest : list byte) :
  u2 (mkLoader (b0 :: b1 :: rest) None)
  = (Ok (256 * byteZ b0 + byteZ b1), mkLoader rest None).
Proof.
  unfold u2, bindL, bytes, ReadFull, retL. simpl.
  rewrite drop_0. unfold BigEndian. cbn [fold_left].
  pose proof (byteZ_range b0) as H0.
  rewrite (lor_shiftl_byte 0 b0) by lia.
  rewrite lor_shiftl_byte by lia.
  replace ((0 * 256 + byteZ b0) * 256 + byteZ b1)
    with (256 * byteZ b0 + byteZ b1) by lia.
  reflexivity.
Qed.

(** ** The constant pool and the member tables *)

Lemma bindL_Ok {A B} (m : L A) (k : A -> L B) (l l' : loader) (b : B) :
  bindL m k l = (Ok b, l') ->
  exists a l1, m l = (Ok a, l1) /\ k a l1 = (Ok b, l').
Proof.
  unfold bindL. destruct (m l) as [[a| | |] l1]; intros H; try discriminate H.
  exists a, l1. split; [reflexivity | exact H].
Qed.

Lemma Resolve_S (fuel : nat) (cp : ConstPool) (index : Z) :
  Resolve (S fuel) cp index =
  (c <- cp_at cp (wrap 16 (index - 1)) ;;
   if Tag c =? TagUTF8 then Ok (String_ c)
   else if Tag c =? TagString then Resolve fuel cp (StringIndex c)
   else if (Tag c =? TagClass) || (Tag c =? TagNameAndType)
        then Resolve fuel cp (NameIndex c)
   else Ok ""%string)%R.
Proof. reflexivity. Qed.

(** X3.  Index 0 is not a valid constant-pool index: [Resolve] looks at
    [cp[0 - 1]], which as a [uint16] is [cp[65535]], and panics for every
    pool of at most 65535 entries. *)
Theorem Resolve_index_zero_panics (fuel : nat) (cp : ConstPool) :
  Z.of_nat (length cp) <= 65535 ->
  Resolve (S fuel) cp 0 = Panic IndexOutOfRange.
Proof.
  intros H. rewrite Resolve_S. unfold cp_at.
  change (wrap 16 (0 - 1)) with 65535. unfold ConstPool in *.
  rewrite lookup_ge_None_2 by lia. reflexivity.
Qed.

Lemma Resolve_index_zero_panics_witness :
  Resolve 1 [Const0 TagInteger] 0 = Panic IndexOutOfRange.
Proof. apply (Resolve_index_zero_panics 0 [Const0 TagInteger]). simpl. lia. Defined.

(** X4.  [Resolve] follows String, Class and NameAndType entries without
    any check for cycles: on an entry that refers to itself the recursion
    never ends, whatever depth it is given. *)
Theorem Resolve_self_reference_diverges (fuel : nat) (cp : ConstPool)
        (index : Z) (c : Const) :
  1 <= index < 65536 ->
  cp !! Z.to_nat (index - 1) = Some c ->
  Tag c = TagString /\ StringIndex c = index \/
  (Tag c = TagClass \/ Tag c = TagNameAndType) /\ NameIndex c = index ->
  Resolve fuel cp index = Timeout.
Proof.
  intros Hi Hc Hself. induction fuel as [|fuel IH]; [reflexivity|].
  rewrite Resolve_S. unfold cp_at, wrap.
  rewrite Z.mod_small by (change (2 ^ 16) with 65536; lia).
  unfold ConstPool in *. rewrite Hc. simpl.
  destruct Hself as [[Ht Hs] | [[Ht | Ht] Hn]]; rewrite Ht; simpl.
  - rewrite Hs. exact IH.
  - rewrite Hn. exact IH.
  - rewrite Hn. exact IH.
Qed.

Lemma Resolve_self_reference_diverges_witness :
  Resolve 1000 [mkConst TagClass 1 0 0 0 0 0 0 (S754_zero false) (S754_zero false) ""] 1
  = Timeout.
Proof.
  apply (Resolve_self_reference_diverges 1000 _ 1
           (mkConst TagClass 1 0 0 0 0 0 0 (S754_zero false) (S754_zero false) ""));
    [lia | reflexivity | right; split; [left; reflexivity | reflexivity]].
Defined.

Lemma repeatL_length {A} (count : nat) (body : L A) :
  forall (acc xs : list A) (l l' : loader),
    repeatL count body acc l = (Ok xs, l') ->
    length xs = (length acc + count)%nat.
Proof.
  induction count as [|count IH]; intros acc xs l l' H; simpl in H.
  - injection H as <- _. lia.
  - apply bindL_Ok in H as (x & l1 & _ & H).
    apply IH in H. rewrite length_app in H. simpl in H. lia.
Qed.

(** X5.  A table that loads holds as many records as its count field
    declares: the fields and the methods of a class ([fields]), the
    attributes ([attrs]) and the interfaces ([interfaces]). *)
Theorem tables_have_declared_length (fuel : nat) (cp : ConstPool) (l l' : loader) :
  (forall fs, fields fuel cp l = (Ok fs, l') ->
     exists count, fst (u2 l) = Ok count /\ length fs = Z.to_nat count) /\
  (forall ats, attrs fuel cp l = (Ok ats, l') ->
     exists count, fst (u2 l) = Ok count /\ length ats = Z.to_nat count) /\
  (forall ifs, interfaces fuel cp l = (Ok ifs, l') ->
     exists count, fst (u2 l) = Ok count /\ length ifs = Z.to_nat count).
Proof.
  repeat split; intros xs H;
    [unfold fields in H | unfold attrs in H | unfold interfaces in H];
    apply bindL_Ok in H as (count & l1 & Hc & H);
    exists count; rewrite Hc; (split; [reflexivity|]);
    apply repeatL_length in H; exact H.
Qed.

(** A table of two attributes, the second with a payload. *)
Lemma tables_have_declared_length_witness :
  let cp := [mkConst TagUTF8 0 0 0 0 0 0 0 (S754_zero false) (S754_zero false) "Code"] in
  let l := mkLoader [x00; x02; x00; x01; x00; x00; x00; x00;
                     x00; x01; x00; x00; x00; x01; xb1] None in
  exists count, fst (u2 l) = Ok count /\
    length [mkAttribute "Code" []; mkAttribute "Code" [xb1]] = Z.to_nat count.
Proof.
  intros cp l.
  apply (proj1 (proj2 (tables_have_declared_length 3 cp l (mkLoader [] None)))).
  reflexivity.
Defined.

Lemma cpinfo_loop_length (fuel : nat) (count : Z) :
  count <= 65534 ->
  forall (i : Z) (cp cp' : ConstPool) (l l' : loader),
    1 <= i <= count + 1 ->
    Z.of_nat (length cp) = i - 1 ->
    cpinfo_loop fuel count i cp l = (Ok cp', l') ->
    count - 1 <= Z.of_nat (length cp') <= count.
Proof.
  intros Hcount.
  induction fuel as [|fuel IH]; intros i cp cp' l l' Hi Hlen H.
  - simpl in H. destruct (Z.ltb_spec i count) as [Hlt|Hge].
    + discriminate H.
    + injection H as <- _. lia.
  - simpl in H. destruct (Z.ltb_spec i count) as [Hlt|Hge].
    + apply bindL_Ok in H as (tag & l1 & _ & H).
      apply bindL_Ok in H as (c & l2 & _ & H).
      destruct ((tag =? TagDouble) || (tag =? TagLong)).
      * apply IH in H; [exact H | |].
        -- unfold wrap. rewrite (Z.mod_small (i + 1)) by lia.
           rewrite Z.mod_small by lia. lia.
        -- unfold wrap. rewrite (Z.mod_small (i + 1)) by lia.
           rewrite Z.mod_small by lia.
           rewrite !length_app. simpl. lia.
      * apply IH in H; [exact H | |].
        -- unfold wrap. rewrite Z.mod_small by lia. lia.
        -- unfold wrap. rewrite Z.mod_small by lia.
           rewrite length_app. simpl. lia.
    + injection H as <- _. lia.
Qed.



(** X7.  An input that ends inside the 8-byte header does not make [Load]
    return the read error: the error is latched, the pool is read as empty,
    the index of this class reads as 0, and resolving it panics. *)
Theorem Load_truncated_header_panics (fuel : nat) (input : list byte) :
  (length input < 8)%nat ->
  Load (S fuel) input = Panic IndexOutOfRange.
Proof.
  intros H. unfold Load, Load_body.
  unfold bindL at 1. unfold u8 at 1. unfold bindL at 1. unfold bytes at 1.
  cbn [err r]. unfold ReadFull.
  replace (8 <=? length input)%nat with false
    by (symmetry; apply Nat.leb_gt; exact H).
  reflexivity.
Qed.

Lemma Load_truncated_header_panics_witness :
  Load 1 [xca; xfe; xba; xbe] = Panic IndexOutOfRange.
Proof. apply (Load_truncated_header_panics 0 [xca; xfe; xba; xbe]). simpl. lia. Defined.

(** ** The operand stack *)

Lemma set_Stack_same (f : Frame) : set_Stack (Stack f) f = f.
Proof. destruct f. reflexivity. Qed.

Lemma pop_Ok_inv (f f' : Frame) (v : Value) :
  pop f = Ok (v, f') -> Stack f = Stack f' ++ [v] /\ f' = set_Stack (Stack f') f.
Proof.
  unfold pop. intros H.
  destruct (Stack f !! (length (Stack f) - 1)%nat) as [v'|] eqn:Hl; [|discriminate H].
  injection H as <- <-. simpl. split; [|reflexivity].
  destruct (Stack f) as [|x s] using rev_ind; [discriminate Hl|].
  rewrite length_app in *. simpl in *.
  replace (length s + 1 - 1)%nat with (length s) in * by lia.
  rewrite take_app_length.
  rewrite lookup_app_r in Hl by lia. rewrite Nat.sub_diag in Hl.
  now injection Hl as ->.
Qed.

(** X8.  The operand stack is last-in first-out: [pop] after [push v]
    returns [v] and the frame as it was; [pop] panics exactly on the empty
    stack. *)
Theorem pop_push_roundtrip (f : Frame) (v : Value) :
  pop (push v f) = Ok (v, f) /\
  (pop f = Panic IndexOutOfRange <-> Stack f = []).
Proof.
  split.
  - rewrite (pop_app (push v f) (Stack f) v) by reflexivity.
    unfold push, set_Stack. simpl. destruct f. reflexivity.
  - split.
    + unfold pop. destruct (Stack f) as [|x s] using rev_ind; [reflexivity|].
      rewrite length_app. simpl.
      replace (length s + 1 - 1)%nat with (length s) by lia.
      rewrite lookup_app_r by lia. rewrite Nat.sub_diag. simpl. discriminate.
    + intros H. unfold pop. now rewrite H.
Qed.

(** X9.  SWAP (0x5F) is its own inverse: when it completes, a second SWAP
    restores the frame.  DUP (0x59) adds a copy of the top: when it
    completes, [pop] returns the old top and the old frame. *)
Theorem swap_swap_dup_pop vmClass vmcallMethod fuel (f f1 : Frame) (vm vm1 : VM) :
  (dispatch vmClass vmcallMethod fuel x5f f vm = (Ok (Next f1), vm1) ->
   dispatch vmClass vmcallMethod fuel x5f f1 vm1 = (Ok (Next f), vm)) /\
  (dispatch vmClass vmcallMethod fuel x59 f vm = (Ok (Next f1), vm1) ->
   exists v s, Stack f = s ++ [v] /\ pop f1 = Ok (v, f)).
Proof.
  unfold dispatch. split; intros H; apply liftM_Ok in H as [H ->].
  - unfold bindR in H.
    destruct (pop f) as [[a fa]| | |] eqn:Ha; try discriminate H. simpl in H.
    destruct (pop fa) as [[b fb]| | |] eqn:Hb; try discriminate H. simpl in H.
    injection H as <-.
    apply pop_Ok_inv in Ha as [Ha Hfa]. apply pop_Ok_inv in Hb as [Hb Hfb].
    unfold liftM, bindR.
    rewrite (pop_app (push b (push a fb)) (Stack fb ++ [a]) b) by reflexivity.
    simpl.
    rewrite (pop_app _ (Stack fb) a) by reflexivity. simpl.
    do 2 f_equal. f_equal.
    unfold push, set_Stack. simpl. rewrite <- Hb, <- Ha.
    rewrite Hfb, Hfa. simpl. destruct f. simpl in *. subst. reflexivity.
  - unfold bindR in H.
    destruct (pop f) as [[v fv]| | |] eqn:Hv; try discriminate H. simpl in H.
    injection H as <-.
    apply pop_Ok_inv in Hv as [Hv Hfv].
    exists v, (Stack fv). split; [exact Hv|].
    rewrite (pop_app (push v (push v fv)) (Stack fv ++ [v]) v) by reflexivity.
    do 2 f_equal. unfold push, set_Stack. simpl. rewrite <- Hv.
    rewrite Hfv. simpl. destruct f. reflexivity.
Qed.

(** SWAP on the stack 1, 2. *)
Lemma swap_swap_dup_pop_witness :
  let f := mkFrame 0 0 [x5f] [] [VInt32 1; VInt32 2] in
  let f1 := mkFrame 0 0 [x5f] [] [VInt32 2; VInt32 1] in
  dispatch (fun _ => liftM Timeout) (fun _ _ _ => liftM Timeout) 0 x5f f1 (New [])
  = (Ok (Next f), New []).
Proof.
  intros f f1.
  apply (proj1 (swap_swap_dup_pop (fun _ => liftM Timeout)
                  (fun _ _ _ => liftM Timeout) 0 f f1 (New []) (New []))).
  reflexivity.
Defined.

(** ** Immediate operands *)

Lemma swrap_spec (w z : Z) :
  0 < w ->
  - 2 ^ (w - 1) <= swrap w z < 2 ^ (w - 1) /\ (swrap w z - z) mod 2 ^ w = 0.
Proof.
  intros Hw. unfold swrap.
  assert (Hp : 2 ^ w = 2 * 2 ^ (w - 1)).
  { replace w with (1 + (w - 1)) at 1 by lia. rewrite Z.pow_add_r by lia. reflexivity. }
  assert (Hpos : 0 < 2 ^ (w - 1)) by (apply Z.pow_pos_nonneg; lia).
  pose proof (Z.mod_pos_bound (z + 2 ^ (w - 1)) (2 ^ w) ltac:(lia)) as Hb.
  split; [lia|].
  pose proof (Z.div_mod (z + 2 ^ (w - 1)) (2 ^ w) ltac:(lia)) as Hd.
  replace ((z + 2 ^ (w - 1)) mod 2 ^ w - 2 ^ (w - 1) - z)
    with ((- ((z + 2 ^ (w - 1)) / 2 ^ w)) * 2 ^ w) by lia.
  apply Z.mod_mul. lia.
Qed.

(** X10.  BIPUSH (0x10) pushes its operand byte sign-extended, as an [int8]
    between -128 and 127, and skips the operand; SIPUSH (0x11) does the same
    with its two operand bytes, as an [int16].  Neither value is an
    [int32]. *)
Theorem immediate_pushes_sign_extend vmClass vmcallMethod fuel (f : Frame) (vm : VM) :
  (forall b, code_at f (wrap 32 (IP f + 1)) = Ok b ->
     exists z, dispatch vmClass vmcallMethod fuel x10 f vm
               = (Ok (Next (set_IP (wrap 32 (IP f + 1)) (push (VInt8 z) f))), vm) /\
               -128 <= z < 128 /\ (z - byteZ b) mod 256 = 0) /\
  (forall u, code_u16 f = Ok u ->
     exists z, dispatch vmClass vmcallMethod fuel x11 f vm
               = (Ok (Next (set_IP (wrap 32 (IP f + 2)) (push (VInt16 z) f))), vm) /\
               -32768 <= z < 32768 /\ (z - u) mod 65536 = 0).
Proof.
  split.
  - intros b Hb. exists (swrap 8 (byteZ b)). unfold dispatch, liftM, bindR.
    rewrite Hb. split; [reflexivity|]. apply (swrap_spec 8). lia.
  - intros u Hu. exists (swrap 16 u). unfold dispatch, liftM, bindR.
    rewrite Hu. split; [reflexivity|]. apply (swrap_spec 16). lia.
Qed.

(** BIPUSH 0xFF pushes -1. *)
Lemma immediate_pushes_sign_extend_witness :
  let f := mkFrame 0 0 [x10; xff] [] [] in
  exists z, dispatch (fun _ => liftM Timeout) (fun _ _ _ => liftM Timeout) 0 x10 f (New [])
            = (Ok (Next (set_IP (wrap 32 (IP f + 1)) (push (VInt8 z) f))), New []) /\
            -128 <= z < 128 /\ (z - byteZ xff) mod 256 = 0.
Proof.
  intros f.
  apply (proj1 (immediate_pushes_sign_extend (fun _ => liftM Timeout)
                  (fun _ _ _ => liftM Timeout) 0 f (New [])) xff).
  reflexivity.
Defined.

(** X11.  The integer arithmetic handlers assert [int32] operands, and
    BIPUSH pushes [int8]: the sequence BIPUSH a; BIPUSH b; IADD panics with
    a failed type assertion, for all operands [a] and [b]. *)
Theorem bipush_then_iadd_panics open_file fuel (f : Frame) (a b : byte) (vm : VM) :
  0 <= IP f -> IP f + 4 < 2 ^ 32 ->
  code_at f (IP f) = Ok x10 -> code_at f (IP f + 1) = Ok a ->
  code_at f (IP f + 2) = Ok x10 -> code_at f (IP f + 3) = Ok b ->
  code_at f (IP f + 4) = Ok x60 ->
  exec open_file (S (S (S fuel))) f vm = (Panic TypeAssertion, vm).
Proof.
  intros H0 H4 Hc0 Hc1 Hc2 Hc3 Hc4.
  assert (Hw : forall x, 0 <= x < 2 ^ 32 -> wrap 32 x = x)
    by (intros x Hx; unfold wrap; apply Z.mod_small; exact Hx).
  set (va := VInt8 (swrap 8 (byteZ a))).
  set (vb := VInt8 (swrap 8 (byteZ b))).
  set (f1 := mkFrame (Frame_Class f) (IP f + 2) (Code f) (Locals f) (Stack f ++ [va])).
  set (f2 := mkFrame (Frame_Class f) (IP f + 4) (Code f) (Locals f)
                     ((Stack f ++ [va]) ++ [vb])).
  (* BIPUSH a *)
  rewrite (exec_step _ _ _ _ _ Hc0).
  unfold dispatch at 1. unfold bindM at 1, liftM at 1, bindR at 1.
  rewrite (Hw (IP f + 1)) by lia. rewrite Hc1.
  replace (advance _) with f1.
  2:{ unfold advance, f1, set_IP, push, set_Stack.
      cbn [IP Frame_Class Code Locals Stack].
      rewrite Hw by lia. f_equal. lia. }
  (* BIPUSH b *)
  rewrite (exec_step _ _ f1 x10 _ Hc2).
  unfold dispatch at 1. unfold bindM at 1, liftM at 1, bindR at 1.
  replace (code_at f1 (wrap 32 (IP f1 + 1))) with (Ok b : result byte).
  2:{ rewrite <- Hc3. unfold f1, code_at. cbn [IP Code].
      rewrite Hw by lia.
      replace (IP f + 2 + 1) with (IP f + 3) by lia. reflexivity. }
  replace (advance _) with f2.
  2:{ unfold advance, f2, f1, set_IP, push, set_Stack.
      cbn [IP Frame_Class Code Locals Stack].
      rewrite (Hw (IP f + 2 + 1)) by lia. rewrite Hw by lia. f_equal. lia. }
  (* IADD: the first operand popped is an int8 *)
  rewrite (exec_step _ _ f2 x60 _ Hc4).
  unfold dispatch at 1. unfold bindM at 1, liftM at 1, arith.
  rewrite (pop_app f2 (Stack f ++ [va]) vb) by reflexivity.
  reflexivity.
Qed.

(** BIPUSH 1; BIPUSH 2; IADD; IRETURN. *)
Lemma bipush_then_iadd_panics_witness :
  exec no_files 3 (mkFrame 0 0 [x10; x01; x10; x02; x60; xac] [] []) (New [])
  = (Panic TypeAssertion, New []).
Proof.
  apply (bipush_then_iadd_panics no_files 0
           (mkFrame 0 0 [x10; x01; x10; x02; x60; xac] [] []) x01 x02 (New []));
    solve [reflexivity | simpl; lia].
Defined.

(** ** What no instruction changes *)

Lemma frame_kept_refl (f : Frame) : frame_kept f f.
Proof. repeat split. Qed.

Lemma frame_kept_push (f f0 : Frame) (v : Value) :
  frame_kept f f0 -> frame_kept f (push v f0).
Proof. intros H. exact H. Qed.

Lemma frame_kept_set_IP (f f0 : Frame) (ip : Z) :
  frame_kept f f0 -> frame_kept f (set_IP ip f0).
Proof. intros H. exact H. Qed.

Lemma frame_kept_set_Stack (f f0 : Frame) (s : list Value) :
  frame_kept f f0 -> frame_kept f (set_Stack s f0).
Proof. intros H. exact H. Qed.

Lemma frame_kept_pop (f f0 : Frame) (p : Value * Frame) :
  frame_kept f f0 -> pop f0 = Ok p -> frame_kept f (snd p).
Proof.
  intros H Hp. destruct p as [v f1].
  apply pop_Ok_inv in Hp as [_ ->]. exact H.
Qed.

Create HintDb frame.
#[local] Hint Resolve frame_kept_refl frame_kept_push frame_kept_set_IP
  frame_kept_set_Stack : frame.

Lemma keepsR_Ok (f : Frame) (s : step) : step_kept f s -> keeps_frameR f (Ok s).
Proof. intros H s' [= <-]. exact H. Qed.

Lemma keepsR_bind {A} (f : Frame) (m : result A) (k : A -> result step) :
  (forall a, m = Ok a -> keeps_frameR f (k a)) -> keeps_frameR f (bindR m k).
Proof.
  intros Hk s H. destruct m as [a| | |]; try discriminate H.
  exact (Hk a eq_refl s H).
Qed.

Lemma keeps_liftM (f : Frame) (x : result step) :
  keeps_frameR f x -> keeps_frame f (liftM x).
Proof. intros Hx vm f' vm' H. apply liftM_Ok in H as [H _]. exact (Hx _ H). Qed.

Lemma keeps_retM (f : Frame) (s : step) : step_kept f s -> keeps_frame f (retM s).
Proof. intros Hs vm f' vm' H. apply retM_Ok in H as [<- _]. exact Hs. Qed.

Lemma keeps_bindM {A} (f : Frame) (m : M A) (k : A -> M step) :
  (forall a, keeps_frame f (k a)) -> keeps_frame f (bindM m k).
Proof.
  intros Hk vm f' vm' H. apply bindM_Ok in H as (a & vm1 & _ & H).
  exact (Hk a _ _ _ H).
Qed.

Lemma keeps_bindM_pop (f f0 : Frame) (k : Value * Frame -> M step) :
  frame_kept f f0 ->
  (forall p, frame_kept f (snd p) -> keeps_frame f (k p)) ->
  keeps_frame f (bindM (liftM (pop f0)) k).
Proof.
  intros H0 Hk vm f' vm' H. apply bindM_Ok in H as (p & vm1 & Hp & H).
  apply liftM_Ok in Hp as [Hp ->].
  exact (Hk p (frame_kept_pop _ _ _ H0 Hp) _ _ _ H).
Qed.

Lemma keepsR_bind_pop (f f0 : Frame) (k : Value * Frame -> result step) :
  frame_kept f f0 ->
  (forall p, frame_kept f (snd p) -> keeps_frameR f (k p)) ->
  keeps_frameR f (bindR (pop f0) k).
Proof.
  intros H0 Hk. apply keepsR_bind. intros p Hp.
  exact (Hk p (frame_kept_pop _ _ _ H0 Hp)).
Qed.

(** Reduce a goal [keeps_frame f m] along the structure of [m]. *)
Ltac keeps_frame :=
  repeat first
    [ apply keeps_liftM
    | apply keeps_retM; simpl; solve [auto with frame]
    | apply keepsR_Ok; simpl; solve [auto with frame]
    | apply keeps_bindM_pop; [solve [auto with frame] | intros ? ?]
    | apply keepsR_bind_pop; [solve [auto with frame] | intros ? ?]
    | apply keeps_bindM; intros ?
    | apply keepsR_bind; intros ? _
    | match goal with
      | |- keeps_frameR _ (match ?x with _ => _ end) => destruct x
      | |- keeps_frame _ (match ?x with _ => _ end) => destruct x
      | |- keeps_frameR _ (Panic _) => intros ? [=]
      | |- keeps_frameR _ (Err _) => intros ? [=]
      | |- keeps_frameR _ Timeout => intros ? [=]
      | |- keeps_frame _ (let _ := _ in _) => cbv zeta
      | |- keeps_frameR _ (let _ := _ in _) => cbv zeta
      end ].

(** X12.  No instruction writes a local variable: the frame a handler
    continues with has the locals, the code and the class of the frame it
    started from (the store opcodes and IINC have empty handlers, so the
    locals are the arguments and nil for the whole activation). *)
Theorem dispatch_keeps_locals vmClass vmcallMethod fuel (op : byte)
        (f f' : Frame) (vm vm' : VM) :
  dispatch vmClass vmcallMethod fuel op f vm = (Ok (Next f'), vm') ->
  Frame_Class f' = Frame_Class f /\ Code f' = Code f /\ Locals f' = Locals f.
Proof.
  revert vm f' vm'. change (keeps_frame f (dispatch vmClass vmcallMethod fuel op f)).
  destruct op; unfold dispatch, exec_ref, arith; keeps_frame.
Qed.

(** SWAP in a frame of two locals. *)
Lemma dispatch_keeps_locals_witness :
  let f := mkFrame 0 0 [x5f] [VInt32 0; VInt32 7] [VInt32 1; VInt32 2] in
  let f' := mkFrame 0 0 [x5f] [VInt32 0; VInt32 7] [VInt32 2; VInt32 1] in
  Frame_Class f' = Frame_Class f /\ Code f' = Code f /\ Locals f' = Locals f.
Proof.
  intros f f'.
  apply (dispatch_keeps_locals (fun _ => liftM Timeout) (fun _ _ _ => liftM Timeout)
           0 x5f f f' (New []) (New [])).
  reflexivity.
Defined.

(** ** Return, running off the code, loops *)

(** X13.  IRETURN, LRETURN, FRETURN, DRETURN and ARETURN are one handler:
    each returns the top of the operand stack, whatever its dynamic type and
    whatever lies below it, and panics on the empty stack. *)
Theorem value_returns_return_top open_file fuel (op : byte) (f : Frame) (vm : VM) :
  is_value_return op = true ->
  code_at f (IP f) = Ok op ->
  exec open_file (S fuel) f vm
  = (match Stack f !! (length (Stack f) - 1)%nat with
     | Some v => Ok v
     | None => Panic IndexOutOfRange
     end, vm).
Proof.
  intros Hop Hc. rewrite (exec_step _ _ _ _ _ Hc).
  destruct op; try discriminate Hop;
    unfold dispatch, bindM, liftM, bindR, pop;
    destruct (Stack f !! _); reflexivity.
Qed.

(** IRETURN with a string on top of the stack. *)
Lemma value_returns_return_top_witness :
  exec no_files 1 (mkFrame 0 0 [xac] [] [VInt32 1; VString "a"]) (New [])
  = (Ok (VString "a"), New []).
Proof.
  apply (value_returns_return_top no_files 0 xac
           (mkFrame 0 0 [xac] [] [VInt32 1; VString "a"]) (New [])); reflexivity.
Defined.

Lemma wrap32_small (x : Z) : 0 <= x < 2 ^ 32 -> wrap 32 x = x.
Proof. intros H. unfold wrap. now apply Z.mod_small. Qed.

Lemma exec_past_end open_file fuel (f : Frame) (vm : VM) :
  Z.of_nat (length (Code f)) <= IP f ->
  exec open_file (S fuel) f vm = (Panic IndexOutOfRange, vm).
Proof.
  intros H. rewrite exec_S. unfold bindM, liftM, code_at.
  rewrite lookup_ge_None_2 by lia. reflexivity.
Qed.

Lemma exec_skip open_file fuel (f : Frame) (op : byte) (vm : VM) :
  code_at f (IP f) = Ok op ->
  has_handler op = false ->
  exec open_file (S fuel) f vm = exec open_file fuel (advance f) vm.
Proof.
  intros Hop Hno. rewrite (exec_step _ _ _ _ _ Hop).
  now rewrite dispatch_no_handler.
Qed.

Lemma exec_skips_to_end open_file (k : nat) :
  forall fuel (f : Frame) (vm : VM),
    Forall (fun op => has_handler op = false) (Code f) ->
    Z.of_nat (length (Code f)) < 2 ^ 32 ->
    0 <= IP f ->
    (length (Code f) - Z.to_nat (IP f) = k)%nat ->
    exec open_file (S k + fuel) f vm = (Panic IndexOutOfRange, vm).
Proof.
  induction k as [|k IH]; intros fuel f vm Hall Hlen H0 Hk.
  - apply exec_past_end. lia.
  - destruct (Code f !! Z.to_nat (IP f)) as [op|] eqn:Hop.
    2:{ apply lookup_ge_None_1 in Hop. lia. }
    assert (Hno : has_handler op = false).
    { rewrite Forall_forall in Hall. apply Hall.
      eapply list_elem_of_lookup_2. exact Hop. }
    change (S (S k) + fuel)%nat with (S (S k + fuel)).
    rewrite (exec_skip open_file (S k + fuel) f op vm).
    + apply IH; unfold advance, set_IP; cbn [Code IP];
        try assumption; rewrite wrap32_small by lia; lia.
    + unfold code_at. now rewrite Hop.
    + exact Hno.
Qed.

(** X14.  A method body made only of opcodes without a handler (NOP, the
    stores, POP, the conversions, the conditional branches, ...) never
    returns: the interpreter skips every byte, fetches past the end of the
    code and panics. *)
Theorem code_without_handlers_panics open_file fuel (f : Frame) (vm : VM) :
  Forall (fun op => has_handler op = false) (Code f) ->
  Z.of_nat (length (Code f)) < 2 ^ 32 ->
  IP f = 0 ->
  exec open_file (S (length (Code f)) + fuel) f vm = (Panic IndexOutOfRange, vm).
Proof.
  intros Hall Hlen H0.
  apply exec_skips_to_end; try assumption; rewrite H0; simpl; lia.
Qed.

(** ILOAD_0 is not in the code: ISTORE_1; POP; NOP. *)
Lemma code_without_handlers_panics_witness :
  exec no_files 4 (mkFrame 0 0 [x3c; x57; x00] [VInt32 1] [VInt32 2]) (New [])
  = (Panic IndexOutOfRange, New []).
Proof.
  apply (code_without_handlers_panics no_files 0
           (mkFrame 0 0 [x3c; x57; x00] [VInt32 1] [VInt32 2]) (New [])).
  - repeat constructor.
  - simpl. lia.
  - reflexivity.
Defined.

(** X15.  A GOTO whose operand is 2 continues at its own offset (the target
    is [p - 2 + u]): the method never returns, whatever the number of
    instructions it is given. *)
Theorem goto_2_loops_forever open_file (fuel : nat) (f : Frame) (vm : VM) :
  0 <= IP f < 2 ^ 32 ->
  code_at f (IP f) = Ok xa7 ->
  code_u16 f = Ok 2 ->
  exec open_file fuel f vm = (Timeout, vm).
Proof.
  intros Hip Hop Hu. induction fuel as [|fuel IH]; [reflexivity|].
  rewrite (exec_step _ _ _ _ _ Hop).
  unfold dispatch, bindM, liftM, bindR. rewrite Hu.
  replace (advance _) with f; [exact IH|].
  unfold advance, set_IP. cbn [IP Frame_Class Code Locals Stack].
  unfold wrap. rewrite Zplus_mod_idemp_l.
  replace (IP f - 3 + 2 + 1) with (IP f) by lia.
  rewrite Z.mod_small by exact Hip. destruct f. reflexivity.
Qed.

(** ICONST_0; GOTO 2. *)
Lemma goto_2_loops_forever_witness :
  exec no_files 1000 (mkFrame 0 1 [x03; xa7; x00; x02] [] [VInt32 0]) (New [])
  = (Timeout, New []).
Proof.
  apply (goto_2_loops_forever no_files 1000
           (mkFrame 0 1 [x03; xa7; x00; x02] [] [VInt32 0]) (New []));
    solve [reflexivity | simpl; lia].
Defined.

(** X16.  LDC, LDC_W and LDC2_W push the text [Resolve] returns: for an
    Integer, Float, Long or Double constant that is the empty string, never
    a number.  All three read a one-byte index and skip one operand byte. *)
Theorem ldc_of_a_number_pushes_empty_string vmClass vmcallMethod fuel (op b : byte)
        (f : Frame) (vm : VM) (this : Object) (c : Const) :
  op = x12 \/ op = x13 \/ op = x14 ->
  code_at f (wrap 32 (IP f + 1)) = Ok b ->
  heap vm !! Frame_Class f = Some this ->
  Class_ConstPool (Object_Class this) !! Z.to_nat (wrap 16 (byteZ b - 1)) = Some c ->
  Tag c = TagInteger \/ Tag c = TagFloat \/ Tag c = TagLong \/ Tag c = TagDouble ->
  dispatch vmClass vmcallMethod (S fuel) op f vm
  = (Ok (Next (set_IP (wrap 32 (IP f + 1)) (push (VString "") f))), vm).
Proof.
  intros Hop Hb Hthis Hc Htag.
  assert (H : dispatch vmClass vmcallMethod (S fuel) op f vm
              = (b <- liftM (code_at f (wrap 32 (IP f + 1))) ;;
                 v <- Object_Const (S fuel) (Frame_Class f) (byteZ b) ;;
                 retM (Next (set_IP (wrap 32 (IP f + 1)) (push v f))))%M vm)
    by (destruct Hop as [-> | [-> | ->]]; reflexivity).
  rewrite H. unfold bindM at 1, liftM at 1. rewrite Hb.
  unfold Object_Const, bindM, deref, liftM. rewrite Hthis.
  rewrite Resolve_S. unfold cp_at. unfold ConstPool in *. rewrite Hc.
  cbn [bindR].
  destruct Htag as [-> | [-> | [-> | ->]]]; reflexivity.
Qed.

(** LDC #1 where constant 1 is the Integer 42. *)
Lemma ldc_of_a_number_pushes_empty_string_witness :
  let cp := [mkConst TagInteger 0 0 0 0 0 42 0 (S754_zero false) (S754_zero false) ""] in
  let vm := mkVM [] [0%nat] ∅ [mkObject (mkClass cp "C" "" 0 [] [] [] []) None None None] in
  let f := mkFrame 0 0 [x12; x01; xac] [] [] in
  dispatch (fun _ => liftM Timeout) (fun _ _ _ => liftM Timeout) 1 x12 f vm
  = (Ok (Next (set_IP (wrap 32 (IP f + 1)) (push (VString "") f))), vm).
Proof.
  intros cp vm f.
  apply (ldc_of_a_number_pushes_empty_string (fun _ => liftM Timeout)
           (fun _ _ _ => liftM Timeout) 0 x12 x01 f vm
           (mkObject (mkClass cp "C" "" 0 [] [] [] []) None None None)
           (mkConst TagInteger 0 0 0 0 0 42 0 (S754_zero false) (S754_zero false) ""));
    solve [reflexivity | left; reflexivity].
Defined.

(** ** Objects and their fields *)

(** X17.  A field written with [SetField] is what [Field] reads next, every
    other field of every object reads as before, and the registry is not
    touched. *)
Theorem SetField_then_Field (o : nat) (name : string) (value : Value) (vm vm1 : VM) :
  Object_SetField o name value vm = (Ok tt, vm1) ->
  Object_Field o name vm1 = (Ok value, vm1) /\
  (forall o' name', o' <> o \/ name' <> name ->
     fst (Object_Field o' name' vm1) = fst (Object_Field o' name' vm)) /\
  Classes vm1 = Classes vm.
Proof.
  unfold Object_SetField. intros H.
  destruct (heap vm !! o) as [c|] eqn:Ho; [|discriminate H].
  destruct (Fields c) as [m|] eqn:Hm; [|discriminate H].
  injection H as <-.
  assert (Hlt : (o < length (heap vm))%nat) by (eapply lookup_lt_Some; exact Ho).
  repeat split.
  - unfold Object_Field, bindM, deref, retM. simpl.
    rewrite list_lookup_insert_eq by exact Hlt. simpl.
    now rewrite lookup_insert_eq.
  - intros o' name' Hne. unfold Object_Field, bindM, deref, retM. simpl.
    destruct (decide (o' = o)) as [-> | Ho'].
    + rewrite list_lookup_insert_eq by exact Hlt. rewrite Ho. simpl. rewrite Hm.
      destruct Hne as [Hne | Hne]; [contradiction|].
      rewrite lookup_insert_ne by congruence. reflexivity.
    + rewrite list_lookup_insert_ne by congruence.
      destruct (heap vm !! o'); reflexivity.
Qed.

(** A write to the field [b] of a class object with an empty field map. *)
Lemma SetField_then_Field_witness :
  let vm := mkVM [] [0%nat] ∅ [mkObject (mkClass [] "C" "" 0 [] [] [] []) None None (Some ∅)] in
  let vm1 := snd (Object_SetField 0 "b" (VInt32 2) vm) in
  Object_Field 0 "b" vm1 = (Ok (VInt32 2), vm1).
Proof.
  intros vm vm1.
  apply (SetField_then_Field 0 "b" (VInt32 2) vm vm1). reflexivity.
Defined.

(** X18.  [Object.New] returns an object with a new identity, of the class
    of the class object it is called on and pointing back to it; every
    field of the new object reads nil, and no existing object changes. *)
Theorem Object_New_is_fresh (c a : nat) (vm vm1 : VM) :
  Object_New c vm = (Ok a, vm1) ->
  heap vm !! a = None /\
  (exists o, heap vm !! c = Some o /\
             heap vm1 !! a = Some (mkObject (Object_Class o) (Some c) None (Some ∅))) /\
  (forall name, Object_Field a name vm1 = (Ok VNil, vm1)) /\
  (forall b o, heap vm !! b = Some o -> heap vm1 !! b = Some o) /\
  Classes vm1 = Classes vm.
Proof.
  unfold Object_New, bindM, deref, alloc. intros H.
  destruct (heap vm !! c) as [o|] eqn:Hc; [|discriminate H].
  injection H as <- <-. simpl.
  assert (Hnew : (heap vm ++ [mkObject (Object_Class o) (Some c) None (Some ∅)])
                 !! length (heap vm)
                 = Some (mkObject (Object_Class o) (Some c) None (Some ∅)))
    by (rewrite lookup_app_r by lia; now rewrite Nat.sub_diag).
  repeat split.
  - apply lookup_ge_None_2. lia.
  - exists o. split; [reflexivity | exact Hnew].
  - intros name. unfold Object_Field, bindM, deref, retM. simpl.
    rewrite Hnew. simpl. now rewrite lookup_empty.
  - intros b o' Hb. now apply lookup_app_l_Some.
Qed.

(** An instance of the root class of a new VM. *)
Lemma Object_New_is_fresh_witness :
  heap (New []) !! 1%nat = None.
Proof.
  apply (Object_New_is_fresh 0 1 (New []) (snd (Object_New 0 (New [])))).
  reflexivity.
Defined.

(** ** Method lookup and native methods *)

Lemma find_Some_first {A} (p : A -> bool) (l : list A) (x : A) :
  List.find p l = Some x ->
  exists pre post, l = pre ++ x :: post /\ p x = true /\
                   Forall (fun y => p y = false) pre.
Proof.
  induction l as [|y l IH]; simpl; [discriminate|].
  destruct (p y) eqn:Hy.
  - intros [= <-]. exists [], l. repeat split; [exact Hy | constructor].
  - intros H. destruct (IH H) as (pre & post & -> & Hx & Hpre).
    exists (y :: pre), post. repeat split; [exact Hx|]. now constructor.
Qed.

Lemma find_None_all {A} (p : A -> bool) (l : list A) :
  List.find p l = None -> Forall (fun y => p y = false) l.
Proof.
  induction l as [|y l IH]; simpl; [constructor|].
  destruct (p y) eqn:Hy; [discriminate|]. intros H. constructor; auto.
Qed.

Lemma answers_spec (name desc : string) (m : Field) :
  (String.eqb (Field_Name m) name
   && (String.eqb desc "" || String.eqb desc (Field_Descriptor m)))%bool = true
  <-> answers name desc m.
Proof.
  unfold answers.
  rewrite andb_true_iff, orb_true_iff, !String.eqb_eq. reflexivity.
Qed.

(** X19.  [Object.Method] returns the first method of the class, in
    declaration order, with the requested name and, unless the requested
    descriptor is empty, that descriptor; it fails with "method not found"
    exactly when the class itself declares no such method. *)
Theorem Method_returns_first_match (o : Object) (name desc : string) :
  (forall m, Method o name desc = Ok m ->
     exists pre post, Methods (Object_Class o) = pre ++ m :: post /\
                      answers name desc m /\
                      Forall (fun m' => ~ answers name desc m') pre) /\
  (Forall (fun m' => ~ answers name desc m') (Methods (Object_Class o)) <->
   Method o name desc = Err ErrMethodNotFound).
Proof.
  unfold Method. split.
  - intros m H.
    destruct (List.find _ _) as [m0|] eqn:Hf; [|discriminate H].
    injection H as ->.
    apply find_Some_first in Hf as (pre & post & Hl & Hm & Hpre).
    exists pre, post. split; [exact Hl|]. split; [now apply answers_spec|].
    eapply Forall_impl; [exact Hpre|]. intros m' Hm' Ha.
    apply answers_spec in Ha. congruence.
  - split.
    + intros Hall.
      destruct (List.find _ _) as [m0|] eqn:Hf; [|reflexivity].
      apply find_Some_first in Hf as (pre & post & Hl & Hm & _).
      apply answers_spec in Hm. rewrite Hl in Hall.
      apply Forall_app in Hall as [_ Hall]. apply Forall_cons in Hall as [Hn _].
      contradiction.
    + intros H.
      destruct (List.find _ _) as [m0|] eqn:Hf; [discriminate H|].
      apply find_None_all in Hf.
      eapply Forall_impl; [exact Hf|]. intros m' Hm' Ha.
      apply answers_spec in Ha. congruence.
Qed.

(** Two overloads of [f]: the lookup without descriptor returns the first. *)
Lemma Method_returns_first_match_witness :
  let f1 := mkField 9 "f" "(I)V" [] in
  let f2 := mkField 9 "f" "(J)V" [] in
  let o := mkObject (mkClass [] "C" "" 0 [] [] [f1; f2] []) None None None in
  exists pre post, Methods (Object_Class o) = pre ++ f1 :: post /\
                   answers "f" "" f1 /\
                   Forall (fun m' => ~ answers "f" "" m') pre.
Proof.
  intros f1 f2 o.
  apply (proj1 (Method_returns_first_match o "f" "") f1). reflexivity.
Defined.

(** X20.  A method without a Code attribute (none named "Code" with more
    than 8 bytes) runs the native registered for its class and method name:
    [callMethod] returns the native's result on the arguments, with any
    fuel, whatever descriptor the native was registered under; a later
    registration for the same names replaces the earlier one; and without a
    registration the call fails with "method code not found". *)
Theorem native_method_call open_file fuel (obj : nat) (o : Object) (m : Field)
        (args : list Value) (vm : VM) :
  List.find is_Code (Field_Attributes m) = None ->
  heap vm !! obj = Some o ->
  (forall desc f,
     let vm' := RegisterNative (Name (Object_Class o)) (Field_Name m) desc f vm in
     callMethod open_file fuel obj m args vm' = (Ok (f args), vm')) /\
  (forall desc desc' f g,
     RegisterNative (Name (Object_Class o)) (Field_Name m) desc' g
       (RegisterNative (Name (Object_Class o)) (Field_Name m) desc f vm)
     = RegisterNative (Name (Object_Class o)) (Field_Name m) desc' g vm) /\
  (Native vm !! native_key (Name (Object_Class o)) (Field_Name m) = None ->
   callMethod open_file fuel obj m args vm = (Err ErrMethodCodeNotFound, vm)).
Proof.
  intros Hcode Ho. repeat split.
  - intros desc f vm'.
    unfold callMethod, callMethod_. rewrite Hcode.
    unfold bindM, deref, get_Native, vm', RegisterNative. simpl. rewrite Ho.
    simpl. now rewrite lookup_insert_eq.
  - intros desc desc' f g. unfold RegisterNative. simpl.
    now rewrite insert_insert_eq.
  - intros Hnone. unfold callMethod, callMethod_. rewrite Hcode.
    unfold bindM, deref, get_Native. rewrite Ho.
    unfold native_key in Hnone. now rewrite Hnone.
Qed.

(** A native [Runtime.log] that returns nil. *)
Lemma native_method_call_witness :
  let o := mkObject (mkClass [] "Runtime" "" 0 [] [] [] []) None None None in
  let vm := mkVM [] [0%nat] ∅ [o] in
  let m := mkField 9 "log" "(Ljava/lang/String;)V" [] in
  let vm' := RegisterNative "Runtime" "log" "()V" (fun _ => VNil) vm in
  callMethod no_files 0 0 m [VString "Hello world"] vm' = (Ok VNil, vm').
Proof.
  intros o vm m vm'.
  apply (proj1 (native_method_call no_files 0 0%nat o m [VString "Hello world"] vm
                  eq_refl eq_refl) "()V" (fun _ => VNil)).
Defined.

(** X21.  In a new VM the constructor of the root class is callable: for
    every class path, every host file system, any fuel and any arguments,
    [Call("java/lang/Object", "<init>", args...)] returns nil and leaves the
    VM as it is. *)
Theorem root_constructor_returns_nil open_file fuel (classPath : list string)
        (args : list Value) :
  Call open_file fuel "java/lang/Object" "<init>" args (New classPath)
  = (Ok VNil, New classPath).
Proof.
  unfold Call. unfold bindM at 1.
  rewrite (VM_Class_hit open_file fuel "java/lang/Object" (New classPath) 0%nat)
    by reflexivity.
  vm_compute. reflexivity.
Qed.

(** ** What a run can do to the VM *)

Section Respects.

Variable R : VM -> VM -> Prop.
Hypothesis R_refl : forall vm, R vm vm.
Hypothesis R_trans : forall vm1 vm2 vm3, R vm1 vm2 -> R vm2 vm3 -> R vm1 vm3.
Hypothesis R_alloc : forall o, respects R (alloc o).
Hypothesis R_register : forall c, respects R (register c).
Hypothesis R_SetField : forall o name value, respects R (Object_SetField o name value).

Lemma respects_retM {A} (a : A) : respects R (retM a).
Proof. intros vm x vm' [= _ <-]. apply R_refl. Qed.

Lemma respects_liftM {A} (x : result A) : respects R (liftM x).
Proof. intros vm y vm' [= _ <-]. apply R_refl. Qed.

Lemma respects_bindM {A B} (m : M A) (k : A -> M B) :
  respects R m -> (forall a, respects R (k a)) -> respects R (bindM m k).
Proof.
  intros Hm Hk vm x vm' H. unfold bindM in H.
  destruct (m vm) as [y vm1] eqn:E. apply Hm in E.
  destruct y; try (injection H as _ <-; exact E).
  eapply R_trans; [exact E|]. eapply Hk. exact H.
Qed.

Lemma respects_deref (a : nat) : respects R (deref a).
Proof.
  intros vm x vm' H. unfold deref in H.
  destruct (heap vm !! a); injection H as _ <-; apply R_refl.
Qed.

Lemma respects_find_class (name : string) : respects R (find_class name).
Proof. intros vm x vm' [= _ <-]. apply R_refl. Qed.

Lemma respects_get_ClassPath : respects R get_ClassPath.
Proof. intros vm x vm' [= _ <-]. apply R_refl. Qed.

Lemma respects_get_Native (key : string) : respects R (get_Native key).
Proof. intros vm x vm' [= _ <-]. apply R_refl. Qed.

(** Reduce a goal [respects R m] along the structure of [m]. *)
Ltac respects :=
  repeat first
    [ assumption
    | apply respects_retM
    | apply respects_liftM
    | apply respects_deref
    | apply respects_find_class
    | apply respects_get_ClassPath
    | apply respects_get_Native
    | apply R_alloc
    | apply R_register
    | apply R_SetField
    | apply respects_bindM; [|intros ?]
    | match goal with
      | H : forall _, respects R _ |- respects R _ => apply H
      | H : forall _ _ _, respects R _ |- respects R _ => apply H
      | |- respects R (match ?x with _ => _ end) => destruct x
      | |- respects R (let _ := _ in _) => cbv zeta
      end ].

Section Callbacks.

Variable open_file : string -> string -> option (list byte).
Variable vmClass : string -> M nat.
Variable vmcallMethod : nat -> Field -> list Value -> M Value.
Hypothesis vmClass_respects : forall name, respects R (vmClass name).
Hypothesis vmcallMethod_respects :
  forall obj m args, respects R (vmcallMethod obj m args).

Lemma respects_dispatch fuel op frame :
  respects R (dispatch vmClass vmcallMethod fuel op frame).
Proof.
  destruct op;
    unfold dispatch, exec_ref, member_ref, CallMethod_, Object_Method,
      Object_Field, Object_New, Object_Const;
    respects.
Qed.

Lemma respects_load_class fuel name paths :
  respects R (load_class open_file vmClass vmcallMethod fuel name paths).
Proof.
  induction paths as [|path rest IH]; simpl; unfold define_class; respects.
Qed.

End Callbacks.

Lemma respects_callMethod_ (exec : Frame -> M Value) obj m args :
  (forall frame, respects R (exec frame)) ->
  respects R (callMethod_ exec obj m args).
Proof. intros H. unfold callMethod_. respects. Qed.

Lemma respects_machine open_file (fuel : nat) :
  (forall name, respects R (VM_Class open_file fuel name)) /\
  (forall frame, respects R (exec open_file fuel frame)).
Proof.
  induction fuel as [|fuel [IHC IHE]].
  - split; [intros name | intros frame]; simpl; respects.
  - assert (IHM : forall obj m args,
               respects R (callMethod_ (exec open_file fuel) obj m args))
      by (intros; now apply respects_callMethod_).
    pose proof (respects_load_class open_file _ _ IHC IHM) as HL.
    pose proof (respects_dispatch _ _ IHC IHM) as HD.
    split; [intros name | intros frame]; simpl; respects.
Qed.

Lemma respects_Call open_file fuel class method args :
  respects R (Call open_file fuel class method args).
Proof.
  destruct (respects_machine open_file fuel) as [HC HE].
  assert (HM : forall obj m a, respects R (callMethod open_file fuel obj m a))
    by (intros; now apply respects_callMethod_).
  unfold Call, Object_Method. respects.
Qed.

End Respects.

(** X22.  Whatever a call does and however it ends, the VM afterwards has
    the class path and the native registry it had, the registry of classes
    has only grown at its end, no object has disappeared, and every object
    is of the class it was created with. *)
Theorem Call_only_extends_the_VM open_file fuel (class method : string)
        (args : list Value) (vm vm' : VM) (x : result Value) :
  Call open_file fuel class method args vm = (x, vm') ->
  ClassPath vm' = ClassPath vm /\ Native vm' = Native vm /\
  Classes vm `prefix_of` Classes vm' /\
  (length (heap vm) <= length (heap vm'))%nat /\
  (forall a o, heap vm !! a = Some o ->
     exists o', heap vm' !! a = Some o' /\ Object_Class o' = Object_Class o).
Proof.
  intros H.
  assert (HR : same_config vm vm' /\ extends vm vm').
  { revert H.
    apply (respects_Call (fun v v' => same_config v v' /\ extends v v')).
    - intros v. split; [repeat split; lia | apply extends_refl].
    - intros v1 v2 v3 [(Hp1 & Hn1 & Hl1) He1] [(Hp2 & Hn2 & Hl2) He2].
      split; [repeat split; [congruence | congruence | lia]
             | eapply extends_trans; eassumption].
    - intros o v y v' Ha. split; [|eapply preserving_alloc; exact Ha].
      injection Ha as _ <-. repeat split. simpl. rewrite length_app. lia.
    - intros c v y v' Ha. split; [|eapply preserving_register; exact Ha].
      injection Ha as _ <-. repeat split. simpl. lia.
    - intros o name value v y v' Ha.
      split; [|eapply preserving_Object_SetField; exact Ha].
      unfold Object_SetField in Ha.
      destruct (heap v !! o) as [c|]; [|injection Ha as _ <-; repeat split; lia].
      destruct (Fields c); injection Ha as _ <-; repeat split; simpl;
        rewrite ?length_insert; lia. }
  destruct HR as [(Hp & Hn & Hl) [Hc Hh]]. repeat split; assumption.
Qed.

(** [A.main()], which loads [A] and invokes [A.one]. *)
Lemma Call_only_extends_the_VM_witness :
  let vm' := snd (Call example_files 30 "A" "main" [] example_vm) in
  ClassPath vm' = ClassPath example_vm /\ Native vm' = Native example_vm /\
  Classes example_vm `prefix_of` Classes vm' /\
  (length (heap example_vm) <= length (heap vm'))%nat /\
  (forall a o, heap example_vm !! a = Some o ->
     exists o', heap vm' !! a = Some o' /\ Object_Class o' = Object_Class o).
Proof.
  intros vm'.
  apply (Call_only_extends_the_VM example_files 30 "A" "main" [] example_vm vm'
           (Ok (VInt32 5))).
  vm_compute. reflexivity.
Defined.

(** ** Class lookup, continued *)

Lemma load_class_no_file open_file vmClass vmcallMethod fuel name paths vm :
  no_class_file open_file fuel (name ++ ".class")%string paths ->
  load_class open_file vmClass vmcallMethod fuel name paths vm
  = (Err ErrClassNotFound, vm).
Proof.
  unfold no_class_file. induction 1 as [|path rest Hp _ IH]; [reflexivity|].
  simpl. destruct (open_file path (name ++ ".class")%string) as [input|]; [|exact IH].
  destruct Hp as [e ->]. exact IH.
Qed.

(** X23.  If [name] is not registered and every directory of the class
    path either has no file for it or has a file the loader rejects with an
    error, the lookup fails with "class not found" and changes nothing: the
    loader's own error is not reported. *)
Theorem class_not_found open_file fuel (name : string) (vm : VM) :
  unregistered vm name ->
  no_class_file open_file fuel (name ++ ".class")%string (ClassPath vm) ->
  VM_Class open_file (S fuel) name vm = (Err ErrClassNotFound, vm).
Proof.
  intros Hun Hno. rewrite (VM_Class_miss _ _ _ _ Hun).
  now apply load_class_no_file.
Qed.

(** A class path of two directories: no file in the first, and in the second
    the class file of [Bar] cut one byte short. *)
Lemma class_not_found_witness :
  let files := fun (path file : string) =>
    if String.eqb path "b" then Some (removelast Bar_class) else None in
  VM_Class files 11 "X" (New ["a"; "b"]%string)
  = (Err ErrClassNotFound, New ["a"; "b"]%string).
Proof.
  intros files.
  apply (class_not_found files 10 "X" (New ["a"; "b"]%string)).
  - reflexivity.
  - repeat constructor. simpl. exists ErrUnexpectedEOF. vm_compute. reflexivity.
Defined.

(** ** The errors of [Load] *)

Lemma Resolve_never_Err (fuel : nat) (cp : ConstPool) :
  forall index e, Resolve fuel cp index <> Err e.
Proof.
  induction fuel as [|fuel IH]; intros index e; [discriminate|].
  rewrite Resolve_S. unfold cp_at.
  destruct (cp !! _) as [c|]; [|discriminate]. cbn [bindR].
  destruct (Tag c =? TagUTF8); [discriminate|].
  destruct (Tag c =? TagString); [apply IH|].
  destruct (_ || _); [apply IH | discriminate].
Qed.

Lemma kept_or_eof_refl (e : option error) : kept_or_eof e e.
Proof. now left. Qed.

Lemma kept_or_eof_trans (e1 e2 e3 : option error) :
  kept_or_eof e1 e2 -> kept_or_eof e2 e3 -> kept_or_eof e1 e3.
Proof. unfold kept_or_eof. intros [-> | [-> | ->]] [-> | [-> | ->]]; auto. Qed.

Lemma reads_only_retL {A} (a : A) : reads_only (retL a).
Proof. intros l x l' [= <- <-]. split; [discriminate | apply kept_or_eof_refl]. Qed.

Lemma reads_only_Resolve (fuel : nat) (cp : ConstPool) (index : Z) :
  reads_only (liftL (Resolve fuel cp index)).
Proof.
  intros l x l' [= <- <-]. split; [apply Resolve_never_Err | apply kept_or_eof_refl].
Qed.

Lemma reads_only_bindL {A B} (m : L A) (k : A -> L B) :
  reads_only m -> (forall a, reads_only (k a)) -> reads_only (bindL m k).
Proof.
  intros Hm Hk l x l' H. unfold bindL in H.
  destruct (m l) as [y l1] eqn:E. destruct (Hm _ _ _ E) as [Hy He].
  destruct y as [a|e| |].
  - destruct (Hk a _ _ _ H) as [Hx He']. split; [exact Hx|].
    eapply kept_or_eof_trans; eassumption.
  - exfalso. now apply (Hy e).
  - injection H as <- <-. split; [discriminate | exact He].
  - injection H as <- <-. split; [discriminate | exact He].
Qed.

Lemma reads_only_bytes (n : nat) : reads_only (bytes n).
Proof.
  intros l x l' H. unfold bytes, ReadFull in H.
  destruct (err l) as [e|] eqn:He.
  - injection H as <- <-. split; [discriminate | rewrite He; apply kept_or_eof_refl].
  - destruct (n <=? length (r l))%nat; injection H as <- <-;
      (split; [discriminate|]); unfold kept_or_eof; simpl; auto.
    destruct (r l); auto.
Qed.

Create HintDb reads.
#[local] Hint Resolve reads_only_retL reads_only_Resolve reads_only_bytes : reads.

(** Reduce a goal [reads_only m] along the structure of [m]. *)
Ltac reads_only :=
  repeat first
    [ solve [auto with reads]
    | apply reads_only_bindL; [|intros ?] ].

Lemma reads_only_u2 : reads_only u2.
Proof. unfold u2. reads_only. Qed.
Lemma reads_only_u4 : reads_only u4.
Proof. unfold u4. reads_only. Qed.
#[local] Hint Resolve reads_only_u2 reads_only_u4 : reads.

Lemma reads_only_repeatL {A} (count : nat) (body : L A) :
  reads_only body -> forall acc, reads_only (repeatL count body acc).
Proof.
  intros Hb. induction count as [|count IH]; intros acc; simpl; reads_only.
Qed.

Lemma reads_only_attrs (fuel : nat) (cp : ConstPool) : reads_only (attrs fuel cp).
Proof. unfold attrs. reads_only. apply reads_only_repeatL. reads_only. Qed.
#[local] Hint Resolve reads_only_attrs : reads.

Lemma reads_only_fields (fuel : nat) (cp : ConstPool) : reads_only (fields fuel cp).
Proof. unfold fields. reads_only. apply reads_only_repeatL. reads_only. Qed.

Lemma reads_only_interfaces (fuel : nat) (cp : ConstPool) :
  reads_only (interfaces fuel cp).
Proof. unfold interfaces. reads_only. apply reads_only_repeatL. reads_only. Qed.
#[local] Hint Resolve reads_only_fields reads_only_interfaces : reads.

Lemma u2_latched (l : loader) (e : error) : err l = Some e -> u2 l = (Ok 0, l).
Proof.
  intros H. unfold u2, bindL. rewrite (bytes_latched _ _ _ H). reflexivity.
Qed.

Lemma Resolve_index_zero_not_Ok (fuel : nat) (cp : ConstPool) (s : string) :
  Z.of_nat (length cp) <= 65535 -> Resolve fuel cp 0 <> Ok s.
Proof.
  intros H. destruct fuel as [|fuel]; [discriminate|].
  rewrite Resolve_S. unfold cp_at.
  change (wrap 16 (0 - 1)) with 65535. unfold ConstPool in *.
  rewrite lookup_ge_None_2 by lia. discriminate.
Qed.

Lemma never_Err_bindL {A B} (m : L A) (k : A -> L B) :
  never_Err m -> (forall a, never_Err (k a)) -> never_Err (bindL m k).
Proof.
  intros Hm Hk l x l' H e. unfold bindL in H.
  destruct (m l) as [y l1] eqn:E. pose proof (Hm _ _ _ E) as Hy.
  destruct y as [a|e'| |].
  - exact (Hk a _ _ _ H e).
  - exfalso. now apply (Hy e').
  - injection H as <- _. discriminate.
  - injection H as <- _. discriminate.
Qed.

Lemma never_Err_reads_only {A} (m : L A) : reads_only m -> never_Err m.
Proof. intros H l x l' E. exact (proj1 (H _ _ _ E)). Qed.

Lemma never_Err_cpentry (tag : Z) : never_Err (cpentry tag).
Proof.
  assert (Hu1 : reads_only u1) by (unfold u1; reads_only).
  assert (Hu8 : reads_only u8) by (unfold u8; reads_only).
  assert (Hset : forall e, never_Err (set_err e)) by (intros e l x l' [= <- _]; discriminate).
  unfold cpentry.
  repeat match goal with
         | |- never_Err (if ?b then _ else _) => destruct b
         end;
    repeat first
      [ apply Hset
      | apply never_Err_reads_only; solve [auto with reads]
      | apply never_Err_bindL; [|intros ?] ].
Qed.

Lemma never_Err_cpinfo_loop (fuel : nat) (count : Z) :
  forall i cp, never_Err (cpinfo_loop fuel count i cp).
Proof.
  assert (Hu1 : reads_only u1) by (unfold u1; reads_only).
  induction fuel as [|fuel IH]; intros i cp; simpl.
  - destruct (i <? count); intros l x l' [= <- _]; discriminate.
  - destruct (i <? count); [|intros l x l' [= <- _]; discriminate].
    apply never_Err_bindL; [now apply never_Err_reads_only|]. intros tag.
    apply never_Err_bindL; [apply never_Err_cpentry|]. intros c.
    destruct (_ || _); apply IH.
Qed.

(** X24.  For a class file whose declared constant-pool count is at most
    65534, the only errors [Load] ever returns are the two end-of-input
    errors of a failed read.  The "unsupported tag" error is never
    returned: once any error is latched before the this-class index is
    read, that index reads as 0 and resolving it panics. *)
Theorem Load_returns_only_eof_errors (fuel : nat) (input : list byte)
        (count : Z) (e : error) :
  fst (u2 (snd (u8 (mkLoader input None)))) = Ok count ->
  count <= 65534 ->
  Load fuel input = Err e ->
  e = ErrEOF \/ e = ErrUnexpectedEOF.
Proof.
  intros Hcount Hle H. unfold Load in H.
  destruct (Load_body fuel (mkLoader input None)) as [[c|e'| |] l] eqn:Hb;
    try discriminate H.
  2:{ exfalso.
      assert (Hn : never_Err (Load_body fuel)).
      { unfold Load_body, cpinfo.
        assert (Hu8 : reads_only u8) by (unfold u8; reads_only).
        repeat first
          [ apply never_Err_cpinfo_loop
          | apply never_Err_reads_only; solve [auto with reads]
          | apply never_Err_bindL; [|intros ?] ]. }
      exact (Hn _ _ _ Hb e' eq_refl). }
  destruct (err l) as [e0|] eqn:He; [|discriminate H]. injection H as ->.
  unfold Load_body in Hb.
  apply bindL_Ok in Hb as (x8 & l1 & H8 & Hb).
  apply bindL_Ok in Hb as (cp & l2 & Hcp & Hb).
  apply bindL_Ok in Hb as (flags & l3 & Hflags & Hb).
  apply bindL_Ok in Hb as (i & l4 & Hi & Hb).
  apply bindL_Ok in Hb as (name & l5 & Hname & Hb).
  injection Hname as Hname <-.
  (* the pool has at most 65534 entries *)
  rewrite H8 in Hcount. simpl in Hcount.
  unfold cpinfo in Hcp. apply bindL_Ok in Hcp as (count' & l1' & Hc' & Hcp).
  rewrite Hc' in Hcount. injection Hcount as ->.
  assert (Hlen : Z.of_nat (length cp) <= 65535).
  { destruct (Z.le_gt_cases 0 count) as [Hpos | Hneg].
    - pose proof (cpinfo_loop_length fuel count Hle 1 [] cp l1' l2
                    ltac:(lia) eq_refl Hcp). lia.
    - destruct fuel; simpl in Hcp;
        (destruct (Z.ltb_spec 1 count); [lia|]); injection Hcp as <- _; simpl; lia. }
  (* no error was latched when the pool was done *)
  assert (Hnone : err l2 = None).
  { destruct (err l2) as [e2|] eqn:He2; [exfalso | reflexivity].
    rewrite (u2_latched _ _ He2) in Hflags. injection Hflags as _ <-.
    rewrite (u2_latched _ _ He2) in Hi. injection Hi as <- _.
    now apply (Resolve_index_zero_not_Ok fuel cp name). }
  (* from there on the loader only reads *)
  assert (Htail : kept_or_eof (err l2) (err l)).
  { destruct (reads_only_u2 _ _ _ Hflags) as [_ K1].
    destruct (reads_only_u2 _ _ _ Hi) as [_ K2].
    assert (Hrest : reads_only
              (j <- u2 ;;
               super <- liftL (Resolve fuel cp j) ;;
               ifs <- interfaces fuel cp ;;
               fs <- fields fuel cp ;;
               ms <- fields fuel cp ;;
               ats <- attrs fuel cp ;;
               retL (mkClass cp name super flags ifs fs ms ats))%L)
      by reads_only.
    destruct (Hrest _ _ _ Hb) as [_ K3].
    eapply kept_or_eof_trans; [exact K1|].
    eapply kept_or_eof_trans; [exact K2 | exact K3]. }
  rewrite Hnone, He in Htail.
  destruct Htail as [Ht | [Ht | Ht]]; [discriminate Ht | |]; injection Ht as ->; auto.
Qed.

(** The class file of [Bar] cut one byte short, inside the count of the
    class attributes. *)
Lemma Load_returns_only_eof_errors_witness :
  ErrUnexpectedEOF = ErrEOF \/ ErrUnexpectedEOF = ErrUnexpectedEOF.
Proof.
  apply (Load_returns_only_eof_errors 10 (removelast Bar_class) 5 ErrUnexpectedEOF).
  - reflexivity.
  - lia.
  - vm_compute. reflexivity.
Defined.

(** ** A failing static initializer *)

Lemma define_class_registers vmClass vmcallMethod (cls : Class) (vm vm1 : VM)
      (x : result nat) (super : option nat) (vm_s : VM) :
  (forall obj m args, preserving (vmcallMethod obj m args)) ->
  (if String.eqb (Super cls) "" then retM None
   else s <- vmClass (Super cls) ;; retM (Some s))%M vm = (Ok super, vm_s) ->
  define_class vmClass vmcallMethod cls vm = (x, vm1) ->
  extends (mkVM (ClassPath vm_s) (Classes vm_s ++ [length (heap vm_s)]) (Native vm_s)
                (heap vm_s ++ [mkObject cls None super (Some ∅)])) vm1.
Proof.
  intros HM Hsuper H. unfold define_class in H.
  unfold bindM at 1 in H. rewrite Hsuper in H.
  unfold bindM at 1, alloc at 1 in H. unfold bindM at 1, register at 1 in H.
  cbn [ClassPath Classes Native heap] in H.
  destruct (Method _ _ _) as [m| | |];
    try (injection H as _ <-; apply extends_refl).
  unfold bindM in H.
  destruct (vmcallMethod _ _ _ _) as [y vm2] eqn:Hcall.
  apply HM in Hcall.
  destruct y; injection H as _ <-; exact Hcall.
Qed.

(** X25.  The class object is registered before [<clinit>] runs and stays
    registered when [<clinit>] fails: if the first lookup of a class (loaded
    from a file that declares the looked-up name, with its super class
    resolved without registering that name) returns an error, every later
    lookup succeeds, returns the half-initialized class object without
    running anything, and does not report the error again. *)
Theorem failed_lookup_leaves_class_registered open_file (fuel : nat) (name : string)
        (vm vm1 : VM) (cls : Class) (e : error) :
  unregistered vm name ->
  class_file open_file fuel name (ClassPath vm) = Some cls ->
  Name cls = name ->
  Super cls = ""%string \/
  (exists s vm_s, VM_Class open_file fuel (Super cls) vm = (Ok s, vm_s) /\
                  unregistered vm_s name) ->
  VM_Class open_file (S fuel) name vm = (Err e, vm1) ->
  exists c, forall fuel2, VM_Class open_file fuel2 name vm1 = (Ok c, vm1).
Proof.
  intros Hun Hfile Hname Hsuper H.
  rewrite (VM_Class_miss _ _ _ _ Hun) in H.
  rewrite (load_class_class_file _ _ _ _ _ _ _ Hfile) in H.
  assert (Hstage : exists super vm_s,
             (if String.eqb (Super cls) "" then retM None
              else s <- VM_Class open_file fuel (Super cls) ;; retM (Some s))%M vm
             = (Ok super, vm_s) /\ unregistered vm_s name).
  { destruct (String.eqb (Super cls) "") eqn:E.
    - exists None, vm. split; [reflexivity | exact Hun].
    - destruct Hsuper as [He | (s & vm_s & Hs & Huns)].
      + apply String.eqb_neq in E. contradiction.
      + exists (Some s), vm_s. split; [|exact Huns].
        unfold bindM. rewrite Hs. reflexivity. }
  destruct Hstage as (super & vm_s & Hstage & Huns).
  destruct (preserving_machine open_file fuel) as [_ HE].
  pose proof (define_class_registers _ _ _ _ _ _ _ _
                (fun obj m args => preserving_callMethod_ _ obj m args HE)
                Hstage H) as [Hpre Hheap].
  simpl in Hpre, Hheap.
  exists (length (heap vm_s)). intros fuel2. apply VM_Class_hit.
  destruct Hpre as [more Hmore]. rewrite Hmore, <- !app_assoc.
  rewrite (scan_classes_skip (heap vm_s) (heap vm1) name (Classes vm_s) _ Huns).
  - simpl.
    destruct (Hheap (length (heap vm_s)) (mkObject cls None super (Some ∅)))
      as (o' & -> & ->).
    { rewrite lookup_app_r by lia. now rewrite Nat.sub_diag. }
    simpl. rewrite Hname, String.eqb_refl. reflexivity.
  - intros a o Ha. apply Hheap. now apply lookup_app_l_Some.
Qed.

(** The static initializer of [Bad] refers to a class that cannot be found:
    the first lookup fails with "class not found", the second returns the
    class object. *)
Lemma failed_lookup_leaves_class_registered_witness :
  let vm1 := snd (VM_Class more_files 30 "Bad" example_vm) in
  exists c, forall fuel2, VM_Class more_files fuel2 "Bad" vm1 = (Ok c, vm1).
Proof.
  intros vm1.
  match eval vm_compute in (class_file more_files 29 "Bad" (ClassPath example_vm)) with
  | Some ?cls =>
      apply (failed_lookup_leaves_class_registered more_files 29 "Bad" example_vm vm1
               cls ErrClassNotFound)
  end.
  - reflexivity.
  - vm_compute. reflexivity.
  - reflexivity.
  - right. exists 0%nat, example_vm. split; vm_compute; reflexivity.
  - vm_compute. reflexivity.
Defined.

(** ** Invocation and the operand stack *)

Lemma argc_loop_bounds (desc : string) :
  forall inClass n, 0 <= n ->
    0 <= argc_loop desc inClass n <= n + Z.of_nat (String.length desc).
Proof.
  induction desc as [|c rest IH]; intros inClass n Hn; simpl String.length.
  - simpl. lia.
  - cbn [argc_loop].
    destruct inClass.
    + destruct (Ascii.eqb c ";"); [specialize (IH false n Hn) | specialize (IH true n Hn)]; lia.
    + destruct (Ascii.eqb c ")"); [lia|].
      destruct (Ascii.eqb c "L");
        [specialize (IH true (n + 1) ltac:(lia)) | specialize (IH false (n + 1) ltac:(lia))]; lia.
Qed.


Lemma argc_loop_unterminated (desc : string) :
  forall inClass n, occurs ")" desc = false -> argc_loop desc inClass n = 0.
Proof.
  induction desc as [|c rest IH]; intros inClass n H; [reflexivity|].
  simpl in H. apply orb_false_iff in H as [Hc Hrest].
  cbn [argc_loop]. rewrite Hc.
  destruct inClass; [destruct (Ascii.eqb c ";") | destruct (Ascii.eqb c "L")];
    now apply IH.
Qed.

(** X26.  [argc] is never negative and never more than the length of the
    descriptor less its first character; and it is 0, not the number of
    parameters seen, for a descriptor with no closing parenthesis. *)
Theorem argc_bounds (desc : string) :
  0 <= argc desc <= Z.of_nat (String.length desc) /\
  (occurs ")" desc = false -> argc desc = 0).
Proof.
  split.
  - destruct desc as [|c rest]; simpl String.length; [simpl; lia|].
    pose proof (argc_loop_bounds rest false 0 ltac:(lia)). simpl argc. lia.
  - destruct desc as [|c rest]; [reflexivity|]. simpl. intros H.
    apply orb_false_iff in H as [_ H]. now apply argc_loop_unterminated.
Qed.

(** A descriptor cut before its closing parenthesis. *)
Lemma argc_bounds_witness : argc "(IJLjava/lang/String;" = 0.
Proof. apply (proj2 (argc_bounds "(IJLjava/lang/String;")). reflexivity. Defined.

Lemma exec_ref_after_class vmClass vmcallMethod fuel (op : byte) (f : Frame)
      (vm vm1 : VM) (className name desc : string) (c : nat) :
  member_ref fuel f vm = (Ok (className, name, desc), vm) ->
  vmClass className vm = (Ok c, vm1) ->
  op = xb6 \/ op = xb7 \/ op = xb8 ->
  dispatch vmClass vmcallMethod fuel op f vm
  = (args <- liftM (slice_from (Stack f)
                      (Z.of_nat (length (Stack f)) - argc desc - receiver_slots op)) ;;
     res <- CallMethod_ vmcallMethod c name desc args ;;
     stack <- liftM (slice_to (Stack f) (Z.of_nat (length (Stack f)) - argc desc)) ;;
     retM (Next (set_Stack stack (set_IP (wrap 32 (IP f + 2)) f))))%M vm1.
Proof.
  intros Hr Hc Hop.
  assert (H : dispatch vmClass vmcallMethod fuel op f vm
              = exec_ref vmClass vmcallMethod fuel op f vm)
    by (destruct Hop as [-> | [-> | ->]]; reflexivity).
  rewrite H. unfold exec_ref. unfold bindM at 1. rewrite Hr.
  unfold bindM at 1. rewrite Hc.
  destruct Hop as [-> | [-> | ->]]; cbn [receiver_slots];
    rewrite ?Z.sub_0_r; reflexivity.
Qed.

(** X27.  An invoke on a stack with fewer slots than the descriptor counts
    (plus the receiver, except for INVOKESTATIC) panics on the slice of the
    arguments: the class of the method has been resolved by then, and the
    method is not called. *)
Theorem invoke_on_short_stack_panics vmClass vmcallMethod fuel (op : byte)
        (f : Frame) (vm vm1 : VM) (className name desc : string) (c : nat) :
  op = xb6 \/ op = xb7 \/ op = xb8 ->
  member_ref fuel f vm = (Ok (className, name, desc), vm) ->
  vmClass className vm = (Ok c, vm1) ->
  Z.of_nat (length (Stack f)) < argc desc + receiver_slots op ->
  dispatch vmClass vmcallMethod fuel op f vm = (Panic SliceOutOfRange, vm1).
Proof.
  intros Hop Hr Hc Hshort.
  rewrite (exec_ref_after_class _ _ _ _ _ _ _ _ _ _ _ Hr Hc Hop).
  unfold bindM at 1, liftM at 1, slice_from.
  replace (_ <? 0) with true by (symmetry; apply Z.ltb_lt; lia).
  reflexivity.
Qed.

(** INVOKEVIRTUAL of a method without parameters on an empty stack. *)
Lemma invoke_on_short_stack_panics_witness :
  let vm := snd (VM_Class example_files 30 "A" example_vm) in
  let f := mkFrame 1 0 [xb6; x00; x09] [] [] in
  dispatch (VM_Class example_files 30) (callMethod_ (exec example_files 30)) 30 xb6 f vm
  = (Panic SliceOutOfRange, vm).
Proof.
  intros vm f.
  apply (invoke_on_short_stack_panics (VM_Class example_files 30)
           (callMethod_ (exec example_files 30)) 30 xb6 f vm vm "A" "one" "()I" 1%nat).
  - left. reflexivity.
  - vm_compute. reflexivity.
  - vm_compute. reflexivity.
  - vm_compute. reflexivity.
Defined.


